(** * Backtest engine of harb/strategy.py: a shallow embedding

    The development follows [src/harb/strategy.py] (classes [Strategy] and
    [Jockey], function [make_scorecard]) and, of [src/backtest.py], the
    tagging helper, the parameter sweep and the parser of parameter ranges.

    Conventions.
    - Python floats are idealised as exact rationals [Q]; numeric results
      are compared with [==] ([Qeq]).  NaN and infinities have no
      counterpart, so statements hold for finite inputs.
    - Mongo documents and the dicts built by the code are records whose
      fields carry the dict keys; keys that are only known at run time
      (the [user_] fields of a bet, the tag added by the sweep harness) live
      in a [gmap string val].
    - Methods that mutate [self] are functions in a state-and-exception
      monad [M]: the state reached when an exception escapes is kept, as in
      Python.
    - The modules [analytics] and [risk] and the constant
      [common.TO_BE_PLACED] are not among the sources; they enter as
      interfaces ([HorseModel], [RiskModel]) and as a section variable. *)

From Stdlib Require Import ZArith QArith Qabs Qround Lqa Ascii.
From stdpp Require Import base option list sorting strings gmap.

(** ** Documents *)

(** Values a caller may attach to a bet. *)
Inductive val :=
  | VNum (x : Q)
  | VInt (n : Z)
  | VStr (s : string).

(** A race document of the [train] collection. *)
Module Race.
Record t := mk {
  event_id : Z;
  event : string;
  scheduled_off : Z;
  country : string;
  n_runners : Z;
  selection : list Z;
  winners : list Z
}.
End Race.

(** A row of the [vwao] collection, indexed by [(event_id, selection)]. *)
Module Vwao.
Record t := mk {
  event_id : Z;
  selection : Z;
  scheduled_off : Z;
  vwao : Q;
  volume_matched : Q
}.
End Vwao.

(** The dict appended to the ledger by [Strategy.bet].  [extra] holds the
    keys outside the seven fixed ones. *)
Module Bet.
Record t := mk {
  event_id : Z;
  scheduled_off : Z;
  selection : Z;
  amount : Q;
  odds : Q;
  pnl : Q;
  win : list Z;
  extra : gmap string val
}.
End Bet.

(** ** Exceptions and partial results *)

Inductive exn :=
  | KeyError
  | AssertionError
  | ValueError
  | IndexError
  | AttributeError
  | NameError.

Inductive res (A : Type) :=
  | Ok (a : A)
  | Raise (e : exn).
Arguments Ok {A} a.
Arguments Raise {A} e.

#[global] Instance res_ret : MRet res := λ A a, Ok a.
#[global] Instance res_bind : MBind res := λ A B f r,
  match r with
  | Ok a => f a
  | Raise e => Raise e
  end.

(** ** Numeric helpers (numpy on one-dimensional arrays) *)

Definition Qltb (x y : Q) : bool := negb (Qle_bool y x).

Definition Qsum (l : list Q) : Q := foldr Qplus 0%Q l.

Definition Qmin (x y : Q) : Q := if Qle_bool x y then x else y.

(** [np.min]: a [ValueError] on an empty array. *)
Definition np_min (l : list Q) : res Q :=
  match l with
  | [] => Raise ValueError
  | x :: l' => Ok (foldl Qmin x l')
  end.

(** [a[i]] for an in-range, non-negative position. *)
Definition index {A} (l : list A) (i : nat) : res A :=
  match l !! i with
  | Some x => Ok x
  | None => Raise IndexError
  end.

(** ** Interfaces of the missing modules *)

(** Modelled from the spec: [analytics.HorseModel] is missing from the
    sources.  The engine calls three methods on it; the spec (4.1) gives
    one probability per competitor and lets only the update change the
    beliefs. *)
Class HorseModel (H : Type) := {
  get_runs : H → list Z → list Z;
  pwin_trapz : H → list Z → list Q;
  fit_race : H → Race.t → H;
  pwin_trapz_length : ∀ h rs, length (pwin_trapz h rs) = length rs
}.

(** Modelled from the spec: [risk.nwin1_l2reg] is missing from the sources.
    The spec (4.2) leaves the solver open and fixes the shape: vectors of
    equal length in, a stake vector of the same length out. *)
Class RiskModel := {
  nwin1_l2reg : list Q → list Q → Q → list Q;
  nwin1_l2reg_length : ∀ p q r,
    length p = length q → length (nwin1_l2reg p q r) = length p
}.

(** Modelled from the spec: [risk.nwin1_bet_returns] is missing from the
    sources.  Per the spec (4.2) scenario [i] credits the stake of the
    winning selection [i] at its odds and debits all other stakes. *)
Definition nwin1_bet_returns (w odds : list Q) : list Q :=
  imap (λ i '(wi, oi), (wi * (oi - 1) - Qsum (delete i w))%Q) (zip w odds).

(** ** The quote snapshot *)

(** [self.vwao.ix[event_id]]: the rows of one event, [KeyError] when the
    event has none. *)
Definition ix (rows : list Vwao.t) (event_id : Z) : res (list Vwao.t) :=
  match filter (λ r, Vwao.event_id r = event_id) rows with
  | [] => Raise KeyError
  | slice => Ok slice
  end.

(** Selection of one runner's [vwao] in an event slice.  An absent label is
    reported as [KeyError], like an absent event; where pandas would fill
    in NaN instead, the exact numbers of this model have no value to
    offer. *)
Definition vwao_at (slice : list Vwao.t) (selection : Z) : res Q :=
  match list_find (λ r, Vwao.selection r = selection) slice with
  | Some (_, r) => Ok (Vwao.vwao r)
  | None => Raise KeyError
  end.

(** [self.vwao.ix[event_id]['vwao'][runners].values] *)
Definition vwao_values (rows : list Vwao.t) (event_id : Z) (runners : list Z)
  : res (list Q) :=
  slice ← ix rows event_id;
  mapM (vwao_at slice) runners.

(** [self.vwao.get_value((event_id, selection), 'vwao')] *)
Definition get_value (rows : list Vwao.t) (event_id selection : Z) : res Q :=
  match list_find (λ r, Vwao.event_id r = event_id ∧ Vwao.selection r = selection) rows with
  | Some (_, r) => Ok (Vwao.vwao r)
  | None => Raise KeyError
  end.

(** ** Queries on the store and on frames *)

(** The sort key [('scheduled_off', 1)]. *)
Definition vwao_earlier (a b : Vwao.t) : Prop :=
  (Vwao.scheduled_off a ≤ Vwao.scheduled_off b)%Z.
Definition race_earlier (a b : Race.t) : Prop :=
  (Race.scheduled_off a ≤ Race.scheduled_off b)%Z.

#[global] Instance vwao_earlier_dec a b : Decision (vwao_earlier a b) :=
  decide (Vwao.scheduled_off a ≤ Vwao.scheduled_off b)%Z.
#[global] Instance race_earlier_dec a b : Decision (race_earlier a b) :=
  decide (Race.scheduled_off a ≤ Race.scheduled_off b)%Z.

(** The date part of [where_clause]. *)
Definition in_window (start_date end_date : option Z) (t : Z) : bool :=
  from_option (λ d, d <=? t)%Z true start_date
  && from_option (λ d, t <=? d)%Z true end_date.

(** [db[self.vwao_coll].find(where_clause, sort=[('scheduled_off', 1)])];
    documents with equal keys come in the order the sort leaves them in,
    which the store does not specify either. *)
Definition find_vwao (rows : list Vwao.t) (start_date end_date : option Z)
  : list Vwao.t :=
  merge_sort vwao_earlier
    (filter (λ r, in_window start_date end_date (Vwao.scheduled_off r) = true) rows).

(** [self.db[self.train_coll].find(where_clause, sort=[('scheduled_off', 1)])],
    [where_clause] now holding the country as well. *)
Definition find_races (races : list Race.t) (country : option string)
    (start_date end_date : option Z) : list Race.t :=
  merge_sort race_earlier
    (filter (λ r, in_window start_date end_date (Race.scheduled_off r)
                  && from_option (String.eqb (Race.country r)) true country = true)
            races).

(** [frame.groupby(key)]: the groups in ascending key order, rows in frame
    order within a group. *)
Definition groupby {A} (key : A → Z) (l : list A) : list (Z * list A) :=
  (λ k, (k, filter (λ x, key x = k) l)) <$> merge_sort Z.le (remove_dups (key <$> l)).

(** [self.vwao.groupby('event_id')['volume_matched'].sum()] *)
Definition total_matched (rows : list Vwao.t) : list (Z * Q) :=
  (λ kv, (kv.1, Qsum (Vwao.volume_matched <$> kv.2))) <$> groupby Vwao.event_id rows.

(** ** The strategy object *)

(** What the handlers write to the log. *)
Inductive LogMsg :=
  | RunningStrategy (n_races : nat)
  | RacesBacktested (i n_bets : nat) (pnl : Q)
  | PlacingBets (total : Q)
  | SkippingBets (coll : Q)
  | NoVWAO (event_id : Z).

(** The journal of a replay: the [logging] calls and, between them, the
    two kinds of mutation a handler performs, in the order they happen.
    [Placed] and [Fitted] have no counterpart in the source and nothing in
    the model reads them. *)
Inductive Event :=
  | Info (m : LogMsg)
  | Warn (m : LogMsg)
  | Placed (event_id selection : Z)
  | Fitted (event_id : Z).

(** The two collections the strategy reads from [db]. *)
Record Db := {
  vwao_coll : list Vwao.t;
  train_coll : list Race.t
}.

Record Strategy (H : Type) := mkStrategy {
  db : Db;
  vwao : list Vwao.t;
  _total_matched : list (Z * Q);
  _bets : list Bet.t;
  _curr : option Race.t;
  hm : H;
  journal : list Event
}.
Arguments mkStrategy {H}.
Arguments db {H}.
Arguments vwao {H}.
Arguments _total_matched {H}.
Arguments _bets {H}.
Arguments _curr {H}.
Arguments hm {H}.
Arguments journal {H}.

Section Engine.
Context {H : Type} {HM : HorseModel H} {RM : RiskModel}.

(** [common.TO_BE_PLACED], the market type the win model leaves out. *)
Variable TO_BE_PLACED : string.

Definition set_vwao (rows : list Vwao.t) (tm : list (Z * Q)) (s : Strategy H) :=
  mkStrategy (db s) rows tm (_bets s) (_curr s) (hm s) (journal s).
Definition set_bets (bs : list Bet.t) (s : Strategy H) :=
  mkStrategy (db s) (vwao s) (_total_matched s) bs (_curr s) (hm s) (journal s).
Definition set_curr (race : Race.t) (s : Strategy H) :=
  mkStrategy (db s) (vwao s) (_total_matched s) (_bets s) (Some race) (hm s) (journal s).
Definition set_hm (h : H) (s : Strategy H) :=
  mkStrategy (db s) (vwao s) (_total_matched s) (_bets s) (_curr s) h (journal s).
Definition set_journal (j : list Event) (s : Strategy H) :=
  mkStrategy (db s) (vwao s) (_total_matched s) (_bets s) (_curr s) (hm s) j.

(** *** The monad of methods *)

Definition M (A : Type) : Type := Strategy H → res A * Strategy H.

#[local] Instance M_ret : MRet M := λ A a s, (Ok a, s).
#[local] Instance M_bind : MBind M := λ A B f m s,
  match m s with
  | (Ok a, s') => f a s'
  | (Raise e, s') => (Raise e, s')
  end.

Definition gets {A} (f : Strategy H → A) : M A := λ s, (Ok (f s), s).
Definition modify (f : Strategy H → Strategy H) : M unit := λ s, (Ok tt, f s).
Definition lift {A} (r : res A) : M A := λ s, (r, s).
Definition raise {A} (e : exn) : M A := lift (Raise e).
Definition record (e : Event) : M unit :=
  modify (λ s, set_journal (journal s ++ [e]) s).

Definition exn_eqb (a b : exn) : bool :=
  match a, b with
  | KeyError, KeyError | AssertionError, AssertionError
  | ValueError, ValueError | IndexError, IndexError
  | AttributeError, AttributeError | NameError, NameError => true
  | _, _ => false
  end.

(** [try: body except e: handler]; what [body] did before raising stays
    done. *)
Definition try_except (body : M unit) (e : exn) (handler : M unit) : M unit :=
  λ s,
  match body s with
  | (Raise e', s') => if exn_eqb e' e then handler s' else (Raise e', s')
  | r => r
  end.

(** [for i, x in enumerate(l): body(i, x)], counting from [i]. *)
Fixpoint for_enumerate {A} (body : nat → A → M unit) (i : nat) (l : list A)
  : M unit :=
  match l with
  | [] => mret tt
  | x :: l' => body i x;; for_enumerate body (S i) l'
  end.

(** *** Strategy.bet *)

(** [selection in self._curr['winners']] *)
Definition is_winner (selection : Z) (winners : list Z) : bool :=
  bool_decide (selection ∈ winners).

(** [win * amount * (odds - 1) - (1 - win) * amount] with [win] 0 or 1. *)
Definition bet_pnl (win : Z) (amount odds : Q) : Q :=
  (inject_Z win * amount * (odds - 1) - (1 - inject_Z win) * amount)%Q.

(** Lines 31-41: the dict describing one bet on the race [curr]. *)
Definition make_bet (curr : Race.t) (event_id selection : Z) (amount odds : Q)
    (user_fields : gmap string val) : Bet.t :=
  let win := Z.b2z (is_winner selection (Race.winners curr)) in
  let pnl := bet_pnl win amount odds in
  Bet.mk event_id (Race.scheduled_off curr) selection amount odds pnl
         (Race.winners curr) (kmap (String.append "user_") user_fields).

Definition bet (event_id selection : Z) (amount : Q)
    (user_fields : option (gmap string val)) : M unit :=
  curr ← gets _curr;
  match curr with
  | None => raise AttributeError
  | Some curr =>
    if negb (event_id =? Race.event_id curr)%Z then raise AssertionError
    else
      let user_fields := default ∅ user_fields in
      rows ← gets vwao;
      odds ← lift (get_value rows event_id selection);
      let bet := make_bet curr event_id selection amount odds user_fields in
      modify (λ s, set_bets (_bets s ++ [bet]) s);;
      record (Placed event_id selection)
  end.

(** *** Jockey.handle_race2 *)

(** [vwao[vwao == vwao.min()].index[0]]: the first selection quoted at
    the lowest odds of the slice. *)
Definition favourite (slice : list Vwao.t) : res Z :=
  lo ← np_min (Vwao.vwao <$> slice);
  match list_find (λ r, Qeq_bool (Vwao.vwao r) lo = true) slice with
  | Some (_, r) => Ok (Vwao.selection r)
  | None => Raise IndexError
  end.

Definition handle_race2 (race : Race.t) : M unit :=
  if negb (String.eqb (Race.event race) TO_BE_PLACED) then mret tt
  else
    try_except
      (rows ← gets vwao;
       slice ← lift (ix rows (Race.event_id race));
       sel ← lift (favourite slice);
       bet (Race.event_id race) sel 2%Q None)
      KeyError
      (record (Warn (NoVWAO (Race.event_id race)))).

(** *** Jockey.handle_race *)

(** Lines 140-144: each estimate whose relative divergence from the
    market leaves the tolerance is moved onto the market figure scaled
    by 0.9 or 1.1.  Both masks are taken from [rel] before either
    assignment; the second assignment is applied last. *)
Definition blend1 (p q : Q) : Q :=
  let rel := (p / q - 1)%Q in
  let t := 0.1%Q in
  let p1 := if Qltb rel (- t) then (q * 0.9)%Q else p in
  if Qltb t rel then (q * 1.1)%Q else p1.

Definition blend (p q : list Q) : list Q := zip_with blend1 p q.

(** The market-implied probabilities [q = 1.0 / vwao]. *)
Definition implied (vwao : list Q) : list Q := (λ v, 1 / v)%Q <$> vwao.

(** The capped estimates handed to the optimiser and stored with the bets. *)
Definition capped (h : H) (runners : list Z) (vwao : list Q) : list Q :=
  blend (pwin_trapz h runners) (implied vwao).

(** [w = risk.nwin1_l2reg(p, q, 0.1)] *)
Definition stakes (h : H) (runners : list Z) (vwao : list Q) : list Q :=
  nwin1_l2reg (capped h runners vwao) (implied vwao) 0.1%Q.

(** [coll = np.min(risk.nwin1_bet_returns(w, 1 / q))] *)
Definition collateral (w q : list Q) : res Q :=
  np_min (nwin1_bet_returns w ((λ x, 1 / x)%Q <$> q)).

(** [np.all(self.hm.get_runs(runners) > 2)] *)
Definition seasoned (h : H) (runners : list Z) : bool :=
  forallb (λ n, 2 <? n)%Z (get_runs h runners).

(** Line 155, one turn of the comprehension:
    [self.bet(race['event_id'], r, w[i], {'p': p[i]})]. *)
Definition bet_on (event_id : Z) (w p : list Q) (i : nat) (r : Z) : M unit :=
  wi ← lift (index w i);
  pi ← lift (index p i);
  bet event_id r wi (Some {[ "p" := VNum pi ]}).

(** Lines 134-157, the betting part of the handler. *)
Definition decide_bets (race : Race.t) : M unit :=
  let runners := Race.selection race in
  h ← gets hm;
  if seasoned h runners then
    rows ← gets vwao;
    vwao ← lift (vwao_values rows (Race.event_id race) runners);
    let q := implied vwao in
    let p := capped h runners vwao in
    let w := stakes h runners vwao in
    coll ← lift (collateral w q);
    if Qltb (-60) coll then
      record (Info (PlacingBets (Qsum (Qabs <$> w))));;
      for_enumerate (bet_on (Race.event_id race) w p) 0 runners
    else record (Info (SkippingBets coll))
  else mret tt.

(** Line 159. *)
Definition update_skills (race : Race.t) : M unit :=
  modify (λ s, set_hm (fit_race (hm s) race) s);;
  record (Fitted (Race.event_id race)).

(** The guard of line 129. *)
Definition left_out (race : Race.t) : bool :=
  String.eqb (Race.event race) TO_BE_PLACED || (Race.n_runners race <? 3)%Z.

Definition handle_race (race : Race.t) : M unit :=
  if left_out race then mret tt
  else decide_bets race;; update_skills race.

(** *** Strategy.run *)

(** Lines 65-72 for one race at position [i]. *)
Definition replay_race (i : nat) (race : Race.t) : M unit :=
  modify (set_curr race);;
  handle_race race;;
  if (0 <? i)%nat && (i mod 100 =? 0)%nat then
    bs ← gets _bets;
    record (Info (RacesBacktested i (length bs) (Qsum (Bet.pnl <$> bs))))
  else mret tt.

(** An empty query result gives a frame without columns, on which
    [groupby('event_id')] fails. *)
Definition run (country : option string) (start_date end_date : option Z)
  : M unit :=
  d ← gets db;
  let rows := find_vwao (vwao_coll d) start_date end_date in
  modify (λ s, set_vwao rows (_total_matched s) s);;
  (if rows is [] then raise KeyError else mret tt);;
  modify (set_vwao rows (total_matched rows));;
  let races := find_races (train_coll d) country start_date end_date in
  record (Info (RunningStrategy (length races)));;
  for_enumerate replay_race 0 races.

(** [self._total_matched.get_value(event_id)] *)
Definition get_total_matched (event_id : Z) : M Q :=
  tm ← gets _total_matched;
  match list_find (λ kv, kv.1 = event_id) tm with
  | Some (_, kv) => mret kv.2
  | None => raise KeyError
  end.

Definition get_bets : M (list Bet.t) := gets _bets.

End Engine.

(** ** make_scorecard *)

Definition DEFAULT_COMM : Q := 0.95%Q.

(** A row of the [events] frame. *)
Module Ev.
Record t := mk {
  event_id : Z;
  pnl_gross : Q;
  coll : Q;
  scheduled_off : Z;
  pnl_net : Q
}.
End Ev.

Definition calculate_collateral (group : list Bet.t) : res Q :=
  np_min (nwin1_bet_returns (Bet.amount <$> group) (Bet.odds <$> group)).

(** Lines 88-93: one row per group, [pnl_net] starting as a copy of
    [pnl_gross]. *)
Definition event_row (kv : Z * list Bet.t) : res Ev.t :=
  coll ← calculate_collateral kv.2;
  off ← index (Bet.scheduled_off <$> kv.2) 0;
  let gross := Qsum (Bet.pnl <$> kv.2) in
  mret (Ev.mk kv.1 gross coll off gross).

(** Line 94: [events['pnl_net'][events.pnl_net > 0] *= comm] *)
Definition commission (comm : Q) (e : Ev.t) : Ev.t :=
  if Qltb 0 (Ev.pnl_net e)
  then Ev.mk (Ev.event_id e) (Ev.pnl_gross e) (Ev.coll e) (Ev.scheduled_off e)
             (Ev.pnl_net e * comm)%Q
  else e.

(** Lines 86-94, the local [events]: one row per event of the ledger, with
    the commission taken off the gains.  A ledger without bets gives a
    frame without an [event_id] column to group by. *)
Definition events_frame (bets : list Bet.t) (comm : Q) : res (list Ev.t) :=
  match bets with
  | [] => Raise KeyError
  | _ =>
    events ← mapM event_row (groupby Bet.event_id bets);
    mret (commission comm <$> events)
  end.

(** A label of an index: a day, or a name. *)
Inductive label :=
  | Day (d : Z)
  | Name (s : string).

(** A frame of numeric columns. *)
Record Frame := mkFrame {
  labels : list label;
  columns : list (string * list Q)
}.

(** [frame[name]]: [KeyError] when no column has that name. *)
Definition column (name : string) (f : Frame) : res (list Q) :=
  match list_find (λ c, c.1 = name) (columns f) with
  | Some (_, c) => Ok c.2
  | None => Raise KeyError
  end.

(** [frame[name] = values]: replaces the column of that name, or adds one. *)
Definition with_column (name : string) (values : list Q) (f : Frame) : Frame :=
  match list_find (λ c, c.1 = name) (columns f) with
  | Some (i, _) => mkFrame (labels f) (<[i := (name, values)]> (columns f))
  | None => mkFrame (labels f) (columns f ++ [(name, values)])
  end.

(** [frame.rename(mapping)]: the positional argument of [rename] is the
    mapping for the index labels; a label that is not among its keys stays,
    and so do the names of the columns. *)
Definition rename (mapping : list (string * string)) (f : Frame) : Frame :=
  mkFrame
    ((λ l, match l with
           | Name n =>
             match list_find (λ kv, kv.1 = n) mapping with
             | Some (_, kv) => Name kv.2
             | None => l
             end
           | Day _ => l
           end) <$> labels f)
    (columns f).

(** [series.cumsum()] *)
Fixpoint cumsum_from (acc : Q) (l : list Q) : list Q :=
  match l with
  | [] => []
  | x :: l' => (acc + x)%Q :: cumsum_from (acc + x)%Q l'
  end.

Definition cumsum (l : list Q) : list Q := cumsum_from 0 l.

(** [datetime.datetime(t.year, t.month, t.day)].  The module imports
    [datetime] only under [if __name__ == '__main__'] (line 167), so the name
    is bound when the file runs as a script and unbound when it is imported:
    [datetime] is [Some day], with [day t] the midnight before [t], or
    [None], and the call then raises [NameError]. *)
Definition midnight (datetime : option (Z → Z)) (t : Z) : res Z :=
  match datetime with
  | Some day => Ok (day t)
  | None => Raise NameError
  end.

(** Lines 96-98: the gross and net figures summed by day. *)
Definition daily_pnl (datetime : option (Z → Z)) (events : list Ev.t) : res Frame :=
  days ← mapM (λ e, midnight datetime (Ev.scheduled_off e)) events;
  let groups := groupby fst (zip days events) in
  let sums :=
    mkFrame (Day <$> groups.*1)
      [("pnl_gross", (λ kv, Qsum ((λ r, Ev.pnl_gross r.2) <$> kv.2)) <$> groups);
       ("pnl_net", (λ kv, Qsum ((λ r, Ev.pnl_net r.2) <$> kv.2)) <$> groups)] in
  mret (rename [("pnl_gross", "gross"); ("pnl_net", "net")] sums).

(** [events[name]] for the numeric columns of [events]. *)
Definition events_column (name : string) (events : list Ev.t) : res (list Q) :=
  if String.eqb name "pnl_gross" then Ok (Ev.pnl_gross <$> events)
  else if String.eqb name "coll" then Ok (Ev.coll <$> events)
  else if String.eqb name "pnl_net" then Ok (Ev.pnl_net <$> events)
  else Raise KeyError.

(** [make_scorecard(strategy, percentile_width, comm)] on the ledger of the
    strategy, under the module's binding of [datetime].  The result pairs
    the [pnl] entry of the scorecard with [events]; the [describe] entries
    of lines 103-106 and [percentile_width], which only they use, are left
    out. *)
Definition make_scorecard (datetime : option (Z → Z)) (bets : list Bet.t)
    (comm : Q) : res (list (list Q) * list Ev.t) :=
  events ← events_frame bets comm;
  daily ← daily_pnl datetime events;
  gross ← column "gross" daily;
  let daily := with_column "gross_cumm" (cumsum gross) daily in
  net ← column "net" daily;
  let daily := with_column "bet_cumm" (cumsum net) daily in
  pnl ← mapM (λ name, events_column name events) ["gross"; "net"];
  mret (pnl, events).

(** ** The sweep harness (backtest.py) *)

(** [add_scorecard_id_to_dicts]: sets [d['scorecard_id']] on every dict it
    is given and yields that same dict. *)
Definition add_scorecard_id (scorecard_id : val) (d : Bet.t) : Bet.t :=
  Bet.mk (Bet.event_id d) (Bet.scheduled_off d) (Bet.selection d) (Bet.amount d)
         (Bet.odds d) (Bet.pnl d) (Bet.win d)
         (<["scorecard_id" := scorecard_id]> (Bet.extra d)).

Definition add_scorecard_id_to_dicts (scorecard_id : val) (dicts : list Bet.t)
  : list Bet.t :=
  add_scorecard_id scorecard_id <$> dicts.

(** ** The bets of one race *)

(** The ledger entries a full placement on [runners] produces: one per
    runner, with its stake, its capped estimate and its quote. *)
Definition race_bets (curr : Race.t) (event_id : Z) (runners : list Z)
    (w p odds : list Q) : list Bet.t :=
  zip_with (λ r x, make_bet curr event_id r x.1.1 x.2 {[ "p" := VNum x.1.2 ]})
           runners (zip (zip w p) odds).

(** A ledger entry that refers to [race]: its id, its scheduled time and
    its winners. *)
Definition placed_on (race : Race.t) (b : Bet.t) : Prop :=
  Bet.event_id b = Race.event_id race ∧
  Bet.scheduled_off b = Race.scheduled_off race ∧
  Bet.win b = Race.winners race.

(** ** Outcomes of the betting part *)

Section Outcomes.
Context {H : Type} {HM : HorseModel H} {RM : RiskModel}.

(** The ways lines 134-157 can end for [race] from the state [s], each
    with the result and the state it leaves. *)
Inductive decided (race : Race.t) (s : Strategy H)
  : res unit * Strategy H → Prop :=
  | Unseasoned :
      seasoned (hm s) (Race.selection race) = false →
      decided race s (Ok tt, s)
  | Unquoted e :
      seasoned (hm s) (Race.selection race) = true →
      vwao_values (vwao s) (Race.event_id race) (Race.selection race) = Raise e →
      decided race s (Raise e, s)
  | Unpriced vw e :
      seasoned (hm s) (Race.selection race) = true →
      vwao_values (vwao s) (Race.event_id race) (Race.selection race) = Ok vw →
      collateral (stakes (hm s) (Race.selection race) vw) (implied vw) = Raise e →
      decided race s (Raise e, s)
  | Breached vw coll :
      seasoned (hm s) (Race.selection race) = true →
      vwao_values (vwao s) (Race.event_id race) (Race.selection race) = Ok vw →
      collateral (stakes (hm s) (Race.selection race) vw) (implied vw) = Ok coll →
      (coll <= -60)%Q →
      decided race s
        (Ok tt, set_journal (journal s ++ [Info (SkippingBets coll)]) s)
  | Refused vw coll e :
      seasoned (hm s) (Race.selection race) = true →
      vwao_values (vwao s) (Race.event_id race) (Race.selection race) = Ok vw →
      collateral (stakes (hm s) (Race.selection race) vw) (implied vw) = Ok coll →
      (-60 < coll)%Q →
      (_curr s = None ∧ e = AttributeError) ∨
      (∃ curr, _curr s = Some curr ∧
               Race.event_id curr ≠ Race.event_id race ∧ e = AssertionError) →
      decided race s
        (Raise e,
         set_journal
           (journal s ++
            [Info (PlacingBets (Qsum (Qabs <$> stakes (hm s) (Race.selection race) vw)))])
           s)
  | Placed_all vw coll curr :
      seasoned (hm s) (Race.selection race) = true →
      vwao_values (vwao s) (Race.event_id race) (Race.selection race) = Ok vw →
      collateral (stakes (hm s) (Race.selection race) vw) (implied vw) = Ok coll →
      (-60 < coll)%Q →
      _curr s = Some curr →
      Race.event_id curr = Race.event_id race →
      decided race s
        (Ok tt,
         set_journal
           (journal s ++
            Info (PlacingBets (Qsum (Qabs <$> stakes (hm s) (Race.selection race) vw)))
            :: (Placed (Race.event_id race) <$> Race.selection race))
           (set_bets
              (_bets s ++
               race_bets curr (Race.event_id race) (Race.selection race)
                 (stakes (hm s) (Race.selection race) vw)
                 (capped (hm s) (Race.selection race) vw) vw)
              s)).

End Outcomes.

(** ** Reference instances for the examples *)

(** A skill model that keeps the races it has been fitted on and estimates
    a runner's chance by its smoothed win frequency. *)
Definition runs_of (h : list Race.t) (r : Z) : Z :=
  Z.of_nat (length (filter (λ race, r ∈ Race.selection race) h)).

Definition wins_of (h : list Race.t) (r : Z) : Z :=
  Z.of_nat (length (filter (λ race, r ∈ Race.winners race) h)).

Definition freq_pwin (h : list Race.t) (rs : list Z) : list Q :=
  (λ r, inject_Z (wins_of h r + 1) / inject_Z (runs_of h r + Z.of_nat (length rs)))%Q <$> rs.

Definition Frequency : HorseModel (list Race.t) := {|
  get_runs h rs := runs_of h <$> rs;
  pwin_trapz := freq_pwin;
  fit_race h race := race :: h;
  pwin_trapz_length h rs := length_fmap _ rs
|}.

(** The stationary point of [Σ w (p/q - 1) - r |w|²], scaled by [gear]. *)
Definition ridge (gear : Q) (p q : list Q) (r : Q) : list Q :=
  zip_with (λ pi qi, gear * (pi / qi - 1) / (2 * r))%Q p q.

Definition ridge_length gear (p q : list Q) (r : Q) (E : length p = length q)
  : length (ridge gear p q r) = length p :=
  eq_trans (length_zip_with _ p q)
    (eq_trans (f_equal (Nat.min (length p)) (eq_sym E)) (Nat.min_id _)).

Definition Ridge : RiskModel := {|
  nwin1_l2reg := ridge 1;
  nwin1_l2reg_length := ridge_length 1
|}.

Definition Geared : RiskModel := {|
  nwin1_l2reg := ridge 100;
  nwin1_l2reg_length := ridge_length 100
|}.

(** Four meetings of the same three runners; runner 1 wins each time. *)
Definition meeting (event_id : Z) : Race.t :=
  Race.mk event_id "WIN" (10 * event_id) "GB" 3 [1; 2; 3]%Z [1]%Z.

Definition quotes (event_id : Z) : list Vwao.t :=
  [ Vwao.mk event_id 1 (10 * event_id) 2 500;
    Vwao.mk event_id 2 (10 * event_id) 4 300;
    Vwao.mk event_id 3 (10 * event_id) 4 200 ]%Q.

(** The strategy as [Jockey(db)] constructs it: an empty ledger and a new
    skill model.  The attributes [vwao], [_total_matched] and [_curr] do not
    exist before [run]; [_curr] is [None], and the other two are given empty
    values, which nothing below reads: [fresh] is the state handed to [run],
    which assigns both before any use, and to [handle_race] on races that
    are left out or unseasoned, where the snapshot is not looked at. *)
Definition fresh (d : Db) : Strategy (list Race.t) :=
  mkStrategy d [] [] [] None [] [].

Definition season : Db :=
  {| vwao_coll := quotes 4; train_coll := meeting <$> [1; 2; 3; 4]%Z |}.

(** The same season with the quotes of the fourth meeting missing and a
    fifth, quoted meeting after it. *)
Definition gap_season : Db :=
  {| vwao_coll := quotes 5; train_coll := meeting <$> [1; 2; 3; 4; 5]%Z |}.

Definition to_be_placed : string := "TO BE PLACED".

(** The skill state after the first three meetings, and the strategy as it
    stands when the fourth is about to be handled. *)
Definition form : list Race.t := meeting <$> [3; 2; 1]%Z.

Definition at_the_post : Strategy (list Race.t) :=
  mkStrategy season (quotes 4) (total_matched (quotes 4)) []
             (Some (meeting 4)) form [].

(** A race with two runners, and a to-be-placed market. *)
Definition duel : Race.t :=
  Race.mk 9 "WIN" 90 "GB" 2 [1; 2]%Z [1]%Z.

Definition place_market : Race.t :=
  Race.mk 8 to_be_placed 80 "GB" 3 [1; 2; 3]%Z [1; 2]%Z.

(** The replay of [season] with the ridge stakes, and its ledger. *)
Definition season_replay : res unit * Strategy (list Race.t) :=
  run (HM:=Frequency) (RM:=Ridge) to_be_placed None None None (fresh season).

Definition season_ledger : list Bet.t :=
  Eval vm_compute in _bets season_replay.2.

(** A fifth meeting that runner 2 wins, and the season of five quoted
    meetings: the fourth is bet on at a gain, the fifth at a loss. *)
Definition upset : Race.t :=
  Race.mk 5 "WIN" 50 "GB" 3 [1; 2; 3]%Z [2]%Z.

Definition mixed_season : Db :=
  {| vwao_coll := quotes 4 ++ quotes 5;
     train_coll := (meeting <$> [1; 2; 3; 4]%Z) ++ [upset] |}.

Definition mixed_ledger : list Bet.t :=
  Eval vm_compute in
    _bets (run (HM:=Frequency) (RM:=Ridge) to_be_placed None None None
             (fresh mixed_season)).2.

Definition mixed_events : list Ev.t :=
  Eval vm_compute in
    match events_frame mixed_ledger DEFAULT_COMM with
    | Ok events => events
    | Raise _ => []
    end.

(** The replay of [gap_season]. *)
Definition gap_replay : res unit * Strategy (list Race.t) :=
  run (HM:=Frequency) (RM:=Ridge) to_be_placed None None None (fresh gap_season).

(** ** What a replay leaves behind *)

(** The race positions at which progress lines were logged. *)
Definition progress_mark (e : Event) : option nat :=
  match e with
  | Info (RacesBacktested i _ _) => Some i
  | _ => None
  end.

Definition progress_marks (j : list Event) : list nat := omap progress_mark j.

(** Line 68: whether a progress line is due after the race at position [i]. *)
Definition progress_due (i : nat) : bool := (0 <? i)%nat && (i mod 100 =? 0)%nat.

Section Replay.
Context {H : Type} {HM : HorseModel H}.
Variable TO_BE_PLACED : string.

(** The skill model after a race that [handle_race] returned from. *)
Definition fit_eligible (h : H) (race : Race.t) : H :=
  if left_out TO_BE_PLACED race then h else fit_race h race.

End Replay.

(** ** The parameter sweep (backtest.py) *)

(** The hyperparameter names, in the order of the ranges (line 134). *)
Definition keys : list string :=
  ["mu"; "sigma"; "beta"; "tau"; "draw_prob"; "risk_aversion"; "min_races";
   "max_exposure"].

(** [reduce(lambda x, y: x * y, lens)]; without an initial value [reduce]
    has no answer on an empty sequence. *)
Definition reduce_mul (lens : list nat) : option nat :=
  match lens with
  | [] => None
  | n :: lens' => Some (foldl Nat.mul n lens')
  end.

(** Line 137. *)
Definition n_backtests (mparams : list (list Q)) : option nat :=
  reduce_mul (length <$> mparams).

(** [itertools.product] of the ranges: the last range varies fastest. *)
Fixpoint product (ranges : list (list Q)) : list (list Q) :=
  match ranges with
  | [] => [[]]
  | range :: ranges' => x ← range; rest ← product ranges'; [x :: rest]
  end.

(** [dict(zip(ks, values))]: a later pair replaces an earlier one with the
    same key. *)
Definition dict_zip (ks : list string) (values : list Q) : gmap string Q :=
  foldl (λ m kv, <[kv.1 := kv.2]> m) ∅ (zip ks values).

(** Line 144, the contexts handed to [pool.map]: the run index and the
    hyperparameters of the run ([args] is the same object in all of them
    and left out). *)
Definition contexts (mparams : list (list Q)) : list (nat * gmap string Q) :=
  imap (λ n_bkt values, (n_bkt, dict_zip keys values)) (product mparams).

(** The hyperparameters [run_backtest] reads from its context to build the
    strategy (lines 62-64), in the order it reads them. *)
Record Hyper := mkHyper {
  mu : Q;
  sigma : Q;
  beta : Q;
  tau : Q;
  draw_probability : Q;
  risk_aversion : Q;
  min_races : Q;
  max_exposure : Q
}.

(** [mparams[k]] *)
Definition getitem (mparams : gmap string Q) (k : string) : res Q :=
  match mparams !! k with
  | Some v => Ok v
  | None => Raise KeyError
  end.

Definition strategy_args (mparams : gmap string Q) : res Hyper :=
  a ← getitem mparams "mu";
  b ← getitem mparams "sigma";
  c ← getitem mparams "beta";
  d ← getitem mparams "tau";
  e ← getitem mparams "draw_prob";
  f ← getitem mparams "risk_aversion";
  g ← getitem mparams "min_races";
  h ← getitem mparams "max_exposure";
  mret (mkHyper a b c d e f g h).

(** The values of a [Hyper] in the order of [keys]. *)
Definition hyper_values (h : Hyper) : list Q :=
  [mu h; sigma h; beta h; tau h; draw_probability h; risk_aversion h;
   min_races h; max_exposure h].

(** ** Parameter ranges on the command line (backtest.py) *)

Definition DEFAULT_NUM : Z := 10.

(** [s.split(':')] *)
Fixpoint split_colon (s : string) : list string :=
  match s with
  | EmptyString => [EmptyString]
  | String c s' =>
    if Ascii.eqb c ":"%char then EmptyString :: split_colon s'
    else
      match split_colon s' with
      | g :: groups => String c g :: groups
      | [] => [String c EmptyString]
      end
  end.

(** [int(x)] on a float: rounding towards zero. *)
Definition int_of_float (x : Q) : Z :=
  if Qle_bool 0 x then Qfloor x else Qceiling x.

(** [np.linspace(start, stop, num)] with the end point included, as numpy
    had it in the years of this code: the count is cut to an integer, a
    count of zero or less gives the empty array, a count of one gives
    [start], and otherwise the points [i * step + start] are computed and
    the last one is overwritten with [stop]. *)
Definition linspace (start stop : Q) (num : Q) : list Q :=
  let num := int_of_float num in
  if (num <=? 0)%Z then []
  else if (num =? 1)%Z then [start]
  else
    let step := ((stop - start) / inject_Z (num - 1))%Q in
    let y := (λ i, inject_Z (Z.of_nat i) * step + start)%Q
               <$> seq 0 (Z.to_nat num) in
    <[(Z.to_nat num - 1)%nat := stop]> y.

(** What [arg_linspace] can raise. *)
Inductive arg_exn :=
  | FloatValueError
  | ArgumentTypeError.

Inductive parsed (A : Type) :=
  | Parsed (a : A)
  | Rejected (e : arg_exn).
Arguments Parsed {A} a.
Arguments Rejected {A} e.

Section Ranges.

(** The builtin [float] on strings; [None] where it raises [ValueError]. *)
Variable float : string → option Q.

Definition to_float (s : string) (k : Q → parsed (list Q)) : parsed (list Q) :=
  match float s with
  | Some x => k x
  | None => Rejected FloatValueError
  end.

Definition arg_linspace (s : string) : parsed (list Q) :=
  match split_colon s with
  | [a] => to_float a (λ x, Parsed [x])
  | [a; b] =>
    to_float a (λ x, to_float b (λ y,
      Parsed (linspace x y (inject_Z DEFAULT_NUM))))
  | [a; b; n] =>
    to_float a (λ x, to_float b (λ y, to_float n (λ k,
      Parsed (linspace x y k))))
  | _ => Rejected ArgumentTypeError
  end.

End Ranges.

(** The number of colons of a string. *)
Fixpoint colons (s : string) : nat :=
  match s with
  | EmptyString => 0
  | String c s' => (if Ascii.eqb c ":"%char then 1 else 0) + colons s'
  end.

(** A reading of unsigned decimal integers, for the examples. *)
Definition digit_value (c : Ascii.ascii) : option Z :=
  let n := Z.of_N (Ascii.N_of_ascii c) in
  if (48 <=? n)%Z && (n <=? 57)%Z then Some (n - 48)%Z else None.

Fixpoint digits_value (acc : Z) (s : string) : option Z :=
  match s with
  | EmptyString => Some acc
  | String c s' =>
    match digit_value c with
    | Some d => digits_value (10 * acc + d) s'
    | None => None
    end
  end.

Definition digits_float (s : string) : option Q :=
  match s with
  | EmptyString => None
  | _ => inject_Z <$> digits_value 0 s
  end.

(** ** Further examples *)

(** The strategy when the place market of the season is about to be
    handled, with quotes for it. *)
Definition at_the_place : Strategy (list Race.t) :=
  mkStrategy season (quotes 8) (total_matched (quotes 8)) []
             (Some place_market) form [].

(** A season of 101 two-runner races. *)
Definition duel_at (event_id : Z) : Race.t :=
  Race.mk event_id "WIN" (10 * event_id) "GB" 2 [1; 2]%Z [1]%Z.

Definition long_season : Db :=
  {| vwao_coll := quotes 1;
     train_coll := duel_at <$> (Z.of_nat <$> seq 1 101) |}.

Definition long_replay : res unit * Strategy (list Race.t) :=
  run (HM:=Frequency) (RM:=Ridge) to_be_placed None None None (fresh long_season).

(** A season without any quote. *)
Definition unquoted_season : Db :=
  {| vwao_coll := []; train_coll := meeting <$> [1; 2]%Z |}.

(** A grid with two values of [tau] and two of [min_races]. *)
Definition grid : list (list Q) :=
  [[25]; [8]; [4]; [0.1; 0.2]; [0.1]; [0.1]; [3; 5]; [50]]%Q.

(** * Properties *)

(** ** Comparisons and sums on [Q] *)

Lemma Qltb_lt x y : Qltb x y = true ↔ (x < y)%Q.
Proof.
  unfold Qltb. rewrite negb_true_iff, <- not_true_iff_false, Qle_bool_iff.
  split; [apply Qnot_le_lt | apply Qlt_not_le].
Qed.

Lemma Qltb_ge x y : Qltb x y = false ↔ (y <= x)%Q.
Proof. unfold Qltb. by rewrite negb_false_iff, Qle_bool_iff. Qed.

Lemma Qsum_cons x l : Qsum (x :: l) = (x + Qsum l)%Q.
Proof. done. Qed.

(** ** Strategy.bet *)

Section BetFacts.
Context {H : Type}.
Implicit Types (s : Strategy H) (uf : option (gmap string val)).

(** What a call of [bet] does, by cases on the current race and the quote. *)
Lemma bet_cases (event_id selection : Z) (amount : Q) uf s :
  bet event_id selection amount uf s =
  match _curr s with
  | None => (Raise AttributeError, s)
  | Some curr =>
    if (event_id =? Race.event_id curr)%Z then
      match get_value (vwao s) event_id selection with
      | Ok odds =>
        let b := make_bet curr event_id selection amount odds (default ∅ uf) in
        (Ok tt, set_journal (journal s ++ [Placed event_id selection])
                  (set_bets (_bets s ++ [b]) s))
      | Raise e => (Raise e, s)
      end
    else (Raise AssertionError, s)
  end.
Proof.
  unfold bet, mbind, M_bind, gets, raise, lift; simpl.
  destruct (_curr s) as [curr|]; [|done].
  destruct (event_id =? Race.event_id curr)%Z; simpl; [|done].
  by destruct (get_value (vwao s) event_id selection).
Qed.

Lemma bet_pnl_win (amount odds : Q) : (bet_pnl 1 amount odds == amount * (odds - 1))%Q.
Proof. unfold bet_pnl. simpl. ring. Qed.

Lemma bet_pnl_lose (amount odds : Q) : (bet_pnl 0 amount odds == - amount)%Q.
Proof. unfold bet_pnl. simpl. ring. Qed.

(** C5.  When [bet] places a bet of [amount] on [selection], the quote of
    that selection is taken as its odds and the ledger grows by one entry
    whose pnl is [amount * (odds - 1)] if [selection] is among the winners
    of the current race, and [- amount] if it is not. *)
Theorem bet_realized_pnl (event_id selection : Z) (amount : Q) uf s s' :
  bet event_id selection amount uf s = (Ok tt, s') →
  ∃ curr odds b,
    _curr s = Some curr ∧
    get_value (vwao s) event_id selection = Ok odds ∧
    _bets s' = _bets s ++ [b] ∧
    Bet.selection b = selection ∧ Bet.amount b = amount ∧ Bet.odds b = odds ∧
    (selection ∈ Race.winners curr → Bet.pnl b == amount * (odds - 1))%Q ∧
    (selection ∉ Race.winners curr → Bet.pnl b == - amount)%Q.
Proof.
  rewrite bet_cases. intros E.
  destruct (_curr s) as [curr|]; [|done].
  destruct (event_id =? Race.event_id curr)%Z; [|done].
  destruct (get_value (vwao s) event_id selection) as [odds|]; [|done].
  injection E as <-.
  eexists curr, odds, _. repeat split; simpl.
  - intros W. unfold is_winner. rewrite bool_decide_eq_true_2 by done.
    apply bet_pnl_win.
  - intros W. unfold is_winner. rewrite bool_decide_eq_false_2 by done.
    apply bet_pnl_lose.
Qed.

End BetFacts.

(** ** The blending rule *)

(** Case analysis on the two masks of [blend1]. *)
Ltac blend1_masks :=
  unfold blend1; cbv zeta;
  repeat match goal with
  | |- context [Qltb ?a ?b] =>
      let E := fresh "E" in
      destruct (Qltb a b) eqn:E;
      [apply Qltb_lt in E | apply Qltb_ge in E]
  end.

Lemma blend1_above (p q : Q) :
  (0.1 < p / q - 1 → blend1 p q == q * (1 + 0.1))%Q.
Proof. intros Hr. blend1_masks; lra. Qed.

Lemma blend1_below (p q : Q) :
  (p / q - 1 < - 0.1 → blend1 p q == q * (1 - 0.1))%Q.
Proof. intros Hr. blend1_masks; lra. Qed.

Lemma blend1_within (p q : Q) :
  (- 0.1 <= p / q - 1 → p / q - 1 <= 0.1 → blend1 p q = p)%Q.
Proof. intros Hlo Hhi. blend1_masks; first [done | lra]. Qed.

Lemma blend1_band (p q : Q) :
  (0 < q → q * (1 - 0.1) <= blend1 p q ∧ blend1 p q <= q * (1 + 0.1))%Q.
Proof.
  intros Hq.
  destruct (Qlt_le_dec 0.1 (p / q - 1)) as [Hhi|Hhi].
  { rewrite (blend1_above _ _ Hhi). split; nra. }
  destruct (Qlt_le_dec (p / q - 1) (- 0.1)) as [Hlo|Hlo].
  { rewrite (blend1_below _ _ Hlo). split; nra. }
  rewrite (blend1_within _ _ Hlo Hhi).
  assert (p == q * (p / q))%Q as Hp.
  { symmetry. apply Qmult_div_r. lra. }
  set (r := (p / q)%Q) in *. clearbody r.
  rewrite Hp. split; nra.
Qed.

(** ** Quotes *)

Lemma vwao_at_filter (rows : list Vwao.t) (event_id r : Z) :
  vwao_at (filter (λ x, Vwao.event_id x = event_id) rows) r
  = get_value rows event_id r.
Proof.
  unfold vwao_at, get_value.
  induction rows as [|x rows IH]; [done|].
  rewrite filter_cons. simpl.
  destruct (decide (Vwao.event_id x = event_id)) as [Ee|Ee]; simpl.
  - destruct (decide (Vwao.selection x = r)) as [Es|Es].
    + by rewrite decide_True.
    + rewrite decide_False by tauto.
      revert IH.
      destruct (list_find _ (filter _ rows)) as [[? ?]|];
        destruct (list_find _ rows) as [[? ?]|]; simpl; done.
  - rewrite decide_False by tauto.
    revert IH.
    destruct (list_find _ (filter _ rows)) as [[? ?]|];
      destruct (list_find _ rows) as [[? ?]|]; simpl; done.
Qed.

Lemma ix_slice (rows slice : list Vwao.t) (event_id : Z) :
  ix rows event_id = Ok slice →
  slice = filter (λ x, Vwao.event_id x = event_id) rows.
Proof.
  unfold ix. destruct (filter _ rows); [done|]. by intros [= <-].
Qed.

Lemma mapM_res_Forall2 {A B} (f : A → res B) (l : list A) (k : list B) :
  mapM f l = Ok k → Forall2 (λ x y, f x = Ok y) l k.
Proof.
  revert k. induction l as [|x l IH]; simpl; intros k E.
  - injection E as <-. constructor.
  - unfold mbind, res_bind in E.
    destruct (f x) as [y|] eqn:Ex; [|done].
    destruct (mapM f l) as [k'|]; [|done].
    injection E as <-. constructor; auto.
Qed.

(** The values read at line 135 are the odds [bet] takes at line 30. *)
Lemma vwao_values_quotes (rows : list Vwao.t) (event_id : Z) (runners : list Z)
    (vw : list Q) :
  vwao_values rows event_id runners = Ok vw →
  Forall2 (λ r o, get_value rows event_id r = Ok o) runners vw.
Proof.
  unfold vwao_values, mbind, res_bind.
  destruct (ix rows event_id) as [slice|] eqn:Es; [|done].
  apply ix_slice in Es. subst slice. intros E.
  apply mapM_res_Forall2 in E.
  eapply Forall2_impl; [exact E|].
  intros r o Hr. by rewrite <- vwao_at_filter.
Qed.

(** An event without rows has no values. *)
Lemma vwao_values_missing (rows : list Vwao.t) (event_id : Z) (runners : list Z) :
  filter (λ x, Vwao.event_id x = event_id) rows = [] →
  vwao_values rows event_id runners = Raise KeyError.
Proof. intros E. unfold vwao_values, ix. by rewrite E. Qed.

(** ** The betting part of the handler *)

Section HandlerFacts.
Context {H : Type} {HM : HorseModel H} {RM : RiskModel}.
Variable TO_BE_PLACED : string.
Implicit Types (s : Strategy H) (race : Race.t).

Lemma set_nothing s :
  set_journal (journal s ++ []) (set_bets (_bets s ++ []) s) = s.
Proof. destruct s. unfold set_journal, set_bets. simpl. by rewrite !app_nil_r. Qed.

Lemma bet_on_cases (event_id : Z) (w p : list Q) (i : nat) (r : Z) s :
  bet_on event_id w p i r s =
  match w !! i, p !! i with
  | Some wi, Some pi => bet event_id r wi (Some {[ "p" := VNum pi ]}) s
  | _, _ => (Raise IndexError, s)
  end.
Proof.
  unfold bet_on, mbind, M_bind, lift, index.
  destruct (w !! i); destruct (p !! i); done.
Qed.

(** The comprehension of line 155 places every bet when the current race
    is the one bet on and every runner is quoted. *)
Lemma place_all (curr : Race.t) (event_id : Z) (w p : list Q) :
  ∀ (runners : list Z) (odds : list Q) (i : nat) s,
  _curr s = Some curr →
  Race.event_id curr = event_id →
  Forall2 (λ r o, get_value (vwao s) event_id r = Ok o) runners odds →
  (i + length runners ≤ length w)%nat →
  (i + length runners ≤ length p)%nat →
  for_enumerate (bet_on event_id w p) i runners s =
  (Ok tt,
   set_journal (journal s ++ (Placed event_id <$> runners))
     (set_bets (_bets s ++ race_bets curr event_id runners (drop i w) (drop i p) odds) s)).
Proof.
  induction runners as [|r runners IH]; intros odds i s Hc He Hq Hw Hp.
  - simpl. unfold race_bets. simpl. by rewrite set_nothing.
  - inversion Hq as [|? o ? odds' Ho Hq']; subst. simpl in Hw, Hp.
    destruct (lookup_lt_is_Some_2 w i) as [wi Ewi]; [lia|].
    destruct (lookup_lt_is_Some_2 p i) as [pi Epi]; [lia|].
    simpl. unfold mbind at 1, M_bind at 1.
    rewrite bet_on_cases, Ewi, Epi, bet_cases, Hc, Z.eqb_refl, Ho.
    cbv beta iota zeta.
    rewrite (IH odds' (S i)); try done; simpl; try lia.
    f_equal.
    rewrite (drop_S w wi i Ewi), (drop_S p pi i Epi).
    unfold set_journal, set_bets, race_bets. simpl.
    by rewrite <- !app_assoc.
Qed.

(** It places nothing when the current race is another one, or unset. *)
Lemma place_refused (event_id : Z) (w p : list Q) (runners : list Z)
    (i : nat) s :
  (0 < length runners)%nat →
  (i < length w)%nat → (i < length p)%nat →
  (∀ curr, _curr s = Some curr → Race.event_id curr ≠ event_id) →
  for_enumerate (bet_on event_id w p) i runners s =
  (Raise (if _curr s is Some _ then AssertionError else AttributeError), s).
Proof.
  intros Hr Hw Hp Hc.
  destruct runners as [|r runners]; [simpl in Hr; lia|].
  destruct (lookup_lt_is_Some_2 w i) as [wi Ewi]; [lia|].
  destruct (lookup_lt_is_Some_2 p i) as [pi Epi]; [lia|].
  simpl. unfold mbind at 1, M_bind at 1.
  rewrite bet_on_cases, Ewi, Epi, bet_cases.
  destruct (_curr s) as [curr|]; [|done].
  specialize (Hc curr eq_refl).
  destruct (Z.eqb_spec event_id (Race.event_id curr)); [congruence|done].
Qed.

Lemma capped_length (h : H) (runners : list Z) (vw : list Q) :
  length vw = length runners → length (capped h runners vw) = length runners.
Proof.
  intros E. unfold capped, blend, implied.
  rewrite length_zip_with, pwin_trapz_length, length_fmap. lia.
Qed.

Lemma stakes_length (h : H) (runners : list Z) (vw : list Q) :
  length vw = length runners → length (stakes h runners vw) = length runners.
Proof.
  intros E. unfold stakes.
  rewrite nwin1_l2reg_length; rewrite capped_length; try done.
  unfold implied. by rewrite length_fmap.
Qed.

Lemma nwin1_bet_returns_length (w odds : list Q) :
  length (nwin1_bet_returns w odds) = Nat.min (length w) (length odds).
Proof. unfold nwin1_bet_returns. by rewrite length_imap, length_zip. Qed.

Lemma collateral_nonempty (w q : list Q) (coll : Q) :
  collateral w q = Ok coll → (0 < length w)%nat.
Proof.
  unfold collateral. intros E.
  pose proof (nwin1_bet_returns_length w ((λ x, 1 / x)%Q <$> q)) as L.
  destruct (nwin1_bet_returns _ _); [done|]. simpl in L. lia.
Qed.

(** Every run of the betting part is one of the six outcomes. *)
Lemma decide_bets_decided race s : decided race s (decide_bets race s).
Proof.
  unfold decide_bets, mbind, M_bind, gets, lift. simpl.
  destruct (seasoned (hm s) (Race.selection race)) eqn:Hs;
    [|by apply Unseasoned].
  destruct (vwao_values (vwao s) (Race.event_id race) (Race.selection race))
    as [vw|e] eqn:Hv; [|by apply Unquoted].
  destruct (collateral (stakes (hm s) (Race.selection race) vw) (implied vw))
    as [coll|e] eqn:Hc; [|by eapply Unpriced].
  destruct (Qltb (-60) coll) eqn:Hf.
  2:{ apply Qltb_ge in Hf. by eapply Breached. }
  apply Qltb_lt in Hf.
  pose proof (vwao_values_quotes _ _ _ _ Hv) as Hq.
  pose proof (Forall2_length _ _ _ Hq) as Hl. symmetry in Hl.
  pose proof (stakes_length (hm s) _ _ Hl) as Lw.
  pose proof (capped_length (hm s) _ _ Hl) as Lp.
  pose proof (collateral_nonempty _ _ _ Hc) as Hne.
  unfold record, modify. simpl.
  set (s1 := set_journal _ s).
  destruct (_curr s) as [curr|] eqn:Ecurr.
  - destruct (decide (Race.event_id curr = Race.event_id race)) as [Ee|Ee].
    + rewrite (place_all curr (Race.event_id race) _ _ _ vw 0 s1); try done;
        try (simpl; lia).
      rewrite !drop_0.
      replace (set_journal _ (set_bets _ s1)) with
        (set_journal
           (journal s ++
            Info (PlacingBets (Qsum (Qabs <$> stakes (hm s) (Race.selection race) vw)))
            :: (Placed (Race.event_id race) <$> Race.selection race))
           (set_bets
              (_bets s ++
               race_bets curr (Race.event_id race) (Race.selection race)
                 (stakes (hm s) (Race.selection race) vw)
                 (capped (hm s) (Race.selection race) vw) vw)
              s)).
      * by eapply Placed_all.
      * unfold s1, set_journal, set_bets. simpl. by rewrite <- app_assoc.
    + rewrite place_refused; try lia.
      * subst s1. simpl. rewrite Ecurr.
        eapply Refused; try done. right. by exists curr.
      * subst s1. simpl. intros c. rewrite Ecurr. by intros [= <-].
  - rewrite place_refused; try lia.
    + subst s1. simpl. rewrite Ecurr.
      eapply Refused; try done. by left.
    + subst s1. simpl. intros c. by rewrite Ecurr.
Qed.

(** The bets of a race, entry by entry. *)
Lemma race_bets_length (curr : Race.t) (event_id : Z) (runners : list Z)
    (w p odds : list Q) :
  length w = length runners → length p = length runners →
  length odds = length runners →
  length (race_bets curr event_id runners w p odds) = length runners.
Proof.
  intros Lw Lp Lo. unfold race_bets.
  rewrite length_zip_with, !length_zip. lia.
Qed.

Lemma race_bets_lookup (curr : Race.t) (event_id : Z) (runners : list Z)
    (w p odds : list Q) (i : nat) (r : Z) :
  length w = length runners → length p = length runners →
  length odds = length runners →
  runners !! i = Some r →
  ∃ wi pi oi,
    w !! i = Some wi ∧ p !! i = Some pi ∧ odds !! i = Some oi ∧
    race_bets curr event_id runners w p odds !! i
    = Some (make_bet curr event_id r wi oi {[ "p" := VNum pi ]}).
Proof.
  intros Lw Lp Lo Hr.
  pose proof (lookup_lt_Some _ _ _ Hr) as Hi.
  destruct (lookup_lt_is_Some_2 w i) as [wi Ewi]; [lia|].
  destruct (lookup_lt_is_Some_2 p i) as [pi Epi]; [lia|].
  destruct (lookup_lt_is_Some_2 odds i) as [oi Eoi]; [lia|].
  exists wi, pi, oi. repeat split; try done.
  unfold race_bets.
  rewrite lookup_zip_with, Hr. simpl.
  rewrite !lookup_zip_with, Ewi, Epi. simpl. by rewrite Eoi.
Qed.

(** *** Jockey.handle_race *)

Lemma handle_race_cases race s :
  handle_race TO_BE_PLACED race s =
  if left_out TO_BE_PLACED race then (Ok tt, s)
  else
    match decide_bets race s with
    | (Ok _, s1) =>
      (Ok tt, set_journal (journal s1 ++ [Fitted (Race.event_id race)])
                (set_hm (fit_race (hm s1) race) s1))
    | (Raise e, s1) => (Raise e, s1)
    end.
Proof.
  unfold handle_race.
  destruct (left_out _ _); [done|].
  unfold mbind at 1, M_bind at 1.
  by destruct (decide_bets race s) as [[[]|e] s1].
Qed.

Lemma left_out_true race :
  left_out TO_BE_PLACED race = true ↔
  Race.event race = TO_BE_PLACED ∨ (Race.n_runners race < 3)%Z.
Proof.
  unfold left_out. rewrite orb_true_iff, Z.ltb_lt.
  by destruct (String.eqb_spec (Race.event race) TO_BE_PLACED); intuition.
Qed.

Lemma left_out_false race :
  left_out TO_BE_PLACED race = false ↔
  Race.event race ≠ TO_BE_PLACED ∧ (3 ≤ Race.n_runners race)%Z.
Proof.
  unfold left_out. rewrite orb_false_iff, Z.ltb_ge.
  by destruct (String.eqb_spec (Race.event race) TO_BE_PLACED); intuition.
Qed.

Lemma race_bets_elem (curr : Race.t) (event_id : Z) (runners : list Z)
    (w p odds : list Q) (b : Bet.t) :
  b ∈ race_bets curr event_id runners w p odds →
  Bet.event_id b = event_id ∧ Bet.selection b ∈ runners ∧
  Bet.scheduled_off b = Race.scheduled_off curr ∧
  Bet.win b = Race.winners curr.
Proof.
  unfold race_bets. intros (r & x & -> & Hr & _)%elem_of_zip_with.
  by repeat split.
Qed.

Lemma seasoned_false (h : H) (runners : list Z) :
  seasoned h runners = false ↔ Exists (λ n, n ≤ 2)%Z (get_runs h runners).
Proof.
  unfold seasoned.
  induction (get_runs h runners) as [|n l IH]; simpl.
  - split; [done | by intros ?%Exists_nil].
  - rewrite Exists_cons, <- IH, andb_false_iff, Z.ltb_ge. done.
Qed.

End HandlerFacts.

(** The columns of the bets of a race. *)
Lemma race_bets_cons (curr : Race.t) (event_id r : Z) (runners : list Z)
    (wi pi oi : Q) (w p odds : list Q) :
  race_bets curr event_id (r :: runners) (wi :: w) (pi :: p) (oi :: odds)
  = make_bet curr event_id r wi oi {[ "p" := VNum pi ]}
    :: race_bets curr event_id runners w p odds.
Proof. done. Qed.

Lemma race_bets_columns (curr : Race.t) (event_id : Z) (runners : list Z)
    (w p odds : list Q) :
  length w = length runners → length p = length runners →
  length odds = length runners →
  Bet.selection <$> race_bets curr event_id runners w p odds = runners ∧
  Bet.amount <$> race_bets curr event_id runners w p odds = w ∧
  Bet.odds <$> race_bets curr event_id runners w p odds = odds ∧
  (λ b, Bet.extra b !! "user_p") <$> race_bets curr event_id runners w p odds
  = (λ x, Some (VNum x)) <$> p.
Proof.
  revert w p odds.
  induction runners as [|r runners IH]; intros [|wi w] [|pi p] [|oi odds];
    try done.
  intros [= Lw] [= Lp] [= Lo].
  destruct (IH w p odds Lw Lp Lo) as (Es & Ea & Eo & Eu).
  rewrite race_bets_cons, !fmap_cons, Es, Ea, Eo, Eu.
  repeat split; try done.
  all: f_equal; simpl; by rewrite kmap_singleton, lookup_singleton_eq by apply _.
Qed.

(** ** Theorems on the race handler *)

Section HandlerTheorems.
Context {H : Type} {HM : HorseModel H} {RM : RiskModel}.
Variable TO_BE_PLACED : string.
Implicit Types (s : Strategy H) (race : Race.t).

(** C1.  Whatever the handler does on a race, the ledger is either left as
    it was or extended by the whole bet set of the race, one bet per
    runner carrying that runner's stake.  The extension happens only if the
    worst-case return of the stakes at market odds is above the floor of
    -60 (so not below it); when the worst-case return is at or below the
    floor, no bet of the race enters the ledger. *)
Theorem stake_placement_all_or_nothing race s :
  let s' := (handle_race TO_BE_PLACED race s).2 in
  let runners := Race.selection race in
  let event_id := Race.event_id race in
  (_bets s' = _bets s ∨
   ∃ curr vw coll new,
     _curr s = Some curr ∧
     vwao_values (vwao s) event_id runners = Ok vw ∧
     collateral (stakes (hm s) runners vw) (implied vw) = Ok coll ∧
     (-60 < coll)%Q ∧
     _bets s' = _bets s ++ new ∧
     length new = length runners ∧
     ∀ i r, runners !! i = Some r →
       ∃ wi b, stakes (hm s) runners vw !! i = Some wi ∧
               new !! i = Some b ∧
               Bet.event_id b = event_id ∧ Bet.selection b = r ∧
               Bet.amount b = wi) ∧
  (∀ vw coll,
     vwao_values (vwao s) event_id runners = Ok vw →
     collateral (stakes (hm s) runners vw) (implied vw) = Ok coll →
     (coll <= -60)%Q →
     _bets s' = _bets s).
Proof.
  intros s' runners event_id. subst s'.
  rewrite handle_race_cases.
  destruct (left_out TO_BE_PLACED race); [by split; [left|]|].
  destruct (decide_bets_decided race s)
    as [Hs|e Hs Hv|vw e Hs Hv Hc|vw coll Hs Hv Hc Hf|vw coll e Hs Hv Hc Hf He
       |vw coll curr Hs Hv Hc Hf Hcurr He]; simpl;
    try (split; [by left|done]).
  split.
  - right.
    pose proof (vwao_values_quotes _ _ _ _ Hv) as Hq.
    pose proof (Forall2_length _ _ _ Hq) as Hl. symmetry in Hl.
    pose proof (stakes_length (hm s) _ _ Hl) as Lw.
    pose proof (capped_length (hm s) _ _ Hl) as Lp.
    eexists curr, vw, coll, _. repeat split; try done.
    + by apply race_bets_length.
    + intros i r Hr.
      destruct (race_bets_lookup curr event_id runners _ _ vw i r Lw Lp Hl Hr)
        as (wi & pi & oi & Ewi & _ & _ & Eb).
      exists wi. eexists. repeat split; [exact Ewi | exact Eb | done..].
  - intros vw' coll' Hv' Hc' Hf'.
    fold runners event_id in Hv, Hc.
    rewrite Hv in Hv'. injection Hv' as <-.
    rewrite Hc in Hc'. injection Hc' as <-. lra.
Qed.

(** C4.  In every betting decision of the handler (a race that passes the
    guard, whose runners all have more than two runs and are all quoted)
    the optimiser is called on estimates [p'] that are the model estimates
    capped towards the market figures [qi = 1 / odds] with tolerance 0.1:
    entry [i] is [qi * (1 + 0.1)] when [pi / qi - 1 > 0.1],
    [qi * (1 - 0.1)] when [pi / qi - 1 < - 0.1] and [pi] itself otherwise,
    so that for positive odds it lies between [qi * (1 - 0.1)] and
    [qi * (1 + 0.1)].  What the handler does next is decided by the
    optimiser's answer [w] on [p']: the worst case it tests against the
    floor and logs is the one of [w], the total it logs is the one of [w],
    and the bets it places carry the stakes [w] and the estimates [p']. *)
Theorem blend_caps_towards_market race s (vw : list Q) :
  left_out TO_BE_PLACED race = false →
  seasoned (hm s) (Race.selection race) = true →
  vwao_values (vwao s) (Race.event_id race) (Race.selection race) = Ok vw →
  let r := handle_race TO_BE_PLACED race s in
  let p := pwin_trapz (hm s) (Race.selection race) in
  let q := (λ o, 1 / o)%Q <$> vw in
  let t := 0.1%Q in
  ∃ p' : list Q,
    length p' = length p ∧
    (∀ i pi oi, p !! i = Some pi → vw !! i = Some oi →
       let qi := (1 / oi)%Q in
       let rel := (pi / qi - 1)%Q in
       ∃ bi, p' !! i = Some bi ∧
             (t < rel → bi == qi * (1 + t))%Q ∧
             (rel < - t → bi == qi * (1 - t))%Q ∧
             (- t <= rel → rel <= t → bi = pi)%Q ∧
             (0 < oi → qi * (1 - t) <= bi ∧ bi <= qi * (1 + t))%Q) ∧
    let w := nwin1_l2reg p' q t in
    ((∃ e, collateral w q = Raise e ∧ r = (Raise e, s)) ∨
     (∃ coll, collateral w q = Ok coll ∧ (coll <= -60)%Q ∧
        r.1 = Ok tt ∧ _bets r.2 = _bets s ∧
        journal r.2
        = journal s ++ [Info (SkippingBets coll); Fitted (Race.event_id race)]) ∨
     (∃ coll evs new, collateral w q = Ok coll ∧ (-60 < coll)%Q ∧
        journal r.2 = journal s ++ Info (PlacingBets (Qsum (Qabs <$> w))) :: evs ∧
        _bets r.2 = _bets s ++ new ∧
        (new = [] ∨
         (Bet.amount <$> new = w ∧
          (λ b, Bet.extra b !! "user_p") <$> new = (λ x, Some (VNum x)) <$> p')))).
Proof.
  intros Hg Hs Hv r p q t. subst r.
  pose proof (vwao_values_quotes _ _ _ _ Hv) as Hq.
  pose proof (Forall2_length _ _ _ Hq) as Hl. symmetry in Hl.
  exists (capped (hm s) (Race.selection race) vw). split; [|split].
  - subst p. by rewrite capped_length, pwin_trapz_length.
  - intros i pi oi Hp Ho qi rel. exists (blend1 pi qi). repeat split.
    + unfold capped, blend, implied.
      fold p. rewrite lookup_zip_with, Hp, list_lookup_fmap, Ho. done.
    + apply blend1_above.
    + apply blend1_below.
    + apply blend1_within.
    + apply blend1_band. unfold qi. apply Qlt_shift_div_l; lra.
    + apply blend1_band. unfold qi. apply Qlt_shift_div_l; lra.
  - change (nwin1_l2reg (capped (hm s) (Race.selection race) vw) q t)
      with (stakes (hm s) (Race.selection race) vw).
    change q with (implied vw).
    rewrite handle_race_cases, Hg.
    destruct (decide_bets_decided race s)
      as [Hs'|e Hs' Hv'|vw' e Hs' Hv' Hc|vw' coll Hs' Hv' Hc Hf
         |vw' coll e Hs' Hv' Hc Hf He|vw' coll curr Hs' Hv' Hc Hf Hcurr He];
      try congruence;
      rewrite Hv in Hv'; injection Hv' as <-; cbv zeta; simpl.
    + left. by exists e.
    + right; left. exists coll. repeat split; try done.
      by rewrite <- app_assoc.
    + right; right. exists coll, [], []. rewrite app_nil_r.
      repeat split; try done. by left.
    + right; right.
      pose proof (stakes_length (hm s) _ _ Hl) as Lw.
      pose proof (capped_length (hm s) _ _ Hl) as Lp.
      destruct (race_bets_columns curr (Race.event_id race) _ _ _ _ Lw Lp Hl)
        as (_ & Ea & _ & Eu).
      eexists coll, _, _. repeat split; try done.
      * by rewrite <- app_assoc.
      * by right.
Qed.

(** C3, as the handler has it.  A race left out by the guard of line 129
    (a to-be-placed market, or fewer than three runners) changes nothing:
    no bet and no belief update.  A race that passes the guard but has a
    runner with at most two earlier runs gets no bet and is fitted. *)
Theorem ineligible_race_handling race s :
  (Race.event race = TO_BE_PLACED ∨ (Race.n_runners race < 3)%Z →
   handle_race TO_BE_PLACED race s = (Ok tt, s)) ∧
  (Race.event race ≠ TO_BE_PLACED → (3 ≤ Race.n_runners race)%Z →
   Exists (λ n, n ≤ 2)%Z (get_runs (hm s) (Race.selection race)) →
   handle_race TO_BE_PLACED race s =
   (Ok tt, set_journal (journal s ++ [Fitted (Race.event_id race)])
             (set_hm (fit_race (hm s) race) s))).
Proof.
  rewrite handle_race_cases. split.
  - intros Hg%left_out_true. by rewrite Hg.
  - intros He Hn Hr%seasoned_false.
    rewrite (proj2 (left_out_false TO_BE_PLACED race)) by done.
    unfold decide_bets, mbind, M_bind, gets. simpl. by rewrite Hr.
Qed.

(** C8.  The events a call of the handler adds to the journal are the
    betting events [pre], followed by the update of the skill model if it
    happens at all: no update occurs among the betting events, every bet
    that entered the ledger was placed within them, and the bets are the
    ones computed from the skill state [hm s] the call started with.  The
    skill state is either still [hm s] or [hm s] fitted on the race. *)
Theorem update_after_bets race s :
  let r := handle_race TO_BE_PLACED race s in
  let runners := Race.selection race in
  let event_id := Race.event_id race in
  ∃ pre new,
    _bets r.2 = _bets s ++ new ∧
    (∀ e, Fitted e ∉ pre) ∧
    Forall (λ b, Placed (Bet.event_id b) (Bet.selection b) ∈ pre) new ∧
    (new = [] ∨
     ∃ curr vw,
       _curr s = Some curr ∧
       vwao_values (vwao s) event_id runners = Ok vw ∧
       new = race_bets curr event_id runners
               (stakes (hm s) runners vw) (capped (hm s) runners vw) vw) ∧
    ((journal r.2 = journal s ++ pre ∧ hm r.2 = hm s) ∨
     (r.1 = Ok tt ∧
      journal r.2 = journal s ++ pre ++ [Fitted event_id] ∧
      hm r.2 = fit_race (hm s) race)).
Proof.
  intros r runners event_id. subst r.
  rewrite handle_race_cases.
  destruct (left_out TO_BE_PLACED race).
  { exists [], []. simpl. rewrite !app_nil_r.
    repeat split; [by intros e ?%elem_of_nil | constructor | by left | by left]. }
  destruct (decide_bets_decided race s)
    as [Hs|e Hs Hv|vw e Hs Hv Hc|vw coll Hs Hv Hc Hf|vw coll e Hs Hv Hc Hf He
       |vw coll curr Hs Hv Hc Hf Hcurr He]; simpl.
  - exists [], []. rewrite !app_nil_r.
    repeat split; [by intros e ?%elem_of_nil | constructor | by left | by right].
  - exists [], []. rewrite !app_nil_r.
    repeat split; [by intros e' ?%elem_of_nil | constructor | by left | by left].
  - exists [], []. rewrite !app_nil_r.
    repeat split; [by intros e' ?%elem_of_nil | constructor | by left | by left].
  - exists [Info (SkippingBets coll)], []. rewrite !app_nil_r.
    repeat split; [|constructor | by left | right; by rewrite <- app_assoc].
    by intros e' [=]%list_elem_of_singleton.
  - eexists [_], []. rewrite !app_nil_r.
    repeat split; [|constructor | by left | by left].
    by intros e' [=]%list_elem_of_singleton.
  - eexists (_ :: _), _.
    repeat split; [| |right; by exists curr, vw |right; by rewrite <- app_assoc].
    + intros e' [[=]|(r & [=] & _)%list_elem_of_fmap]%elem_of_cons.
    + apply Forall_forall. intros b (Eb & Hr & _)%race_bets_elem.
      rewrite Eb. apply elem_of_cons. right.
      apply list_elem_of_fmap. by exists (Bet.selection b).
Qed.

End HandlerTheorems.

(** ** Strategy.run *)

Section RunFacts.
Context {H : Type} {HM : HorseModel H} {RM : RiskModel}.
Variable TO_BE_PLACED : string.
Implicit Types (s : Strategy H) (race : Race.t).

Lemma vwao_at_raises (slice : list Vwao.t) (r : Z) (e : exn) :
  vwao_at slice r = Raise e → e = KeyError.
Proof.
  unfold vwao_at. destruct (list_find _ slice) as [[? ?]|]; [done|].
  by intros [= <-].
Qed.

Lemma mapM_res_raises {A B} (f : A → res B) (l : list A) (e : exn) :
  mapM f l = Raise e → ∃ x, x ∈ l ∧ f x = Raise e.
Proof.
  induction l as [|x l IH]; simpl; [done|].
  unfold mbind, res_bind.
  destruct (f x) as [y|e'] eqn:Ex.
  - destruct (mapM f l) as [k|e'']; [done|].
    intros [= <-]. destruct IH as (x' & Hx & Ef); [done|].
    exists x'. split; [by right | done].
  - intros [= <-]. exists x. split; [by left | done].
Qed.

Lemma vwao_values_raises (rows : list Vwao.t) (event_id : Z) (runners : list Z)
    (e : exn) :
  vwao_values rows event_id runners = Raise e → e = KeyError.
Proof.
  unfold vwao_values, mbind, res_bind, ix.
  destruct (filter _ rows) as [|x slice]; [by intros [= <-]|].
  intros (r & _ & Er)%mapM_res_raises. by apply vwao_at_raises in Er.
Qed.

Lemma collateral_raises (w q : list Q) (e : exn) :
  collateral w q = Raise e → e = ValueError.
Proof.
  unfold collateral, np_min. destruct (nwin1_bet_returns _ _); [|done].
  by intros [= <-].
Qed.

Lemma replay_race_cases (i : nat) race s :
  replay_race TO_BE_PLACED i race s =
  match handle_race TO_BE_PLACED race (set_curr race s) with
  | (Ok _, s1) =>
    (Ok tt,
     if (0 <? i)%nat && (i mod 100 =? 0)%nat
     then set_journal
            (journal s1 ++
             [Info (RacesBacktested i (length (_bets s1)) (Qsum (Bet.pnl <$> _bets s1)))])
            s1
     else s1)
  | (Raise e, s1) => (Raise e, s1)
  end.
Proof.
  unfold replay_race, mbind, M_bind, modify, gets, record.
  destruct (handle_race _ _ _) as [[[]|e] s1]; [|done].
  by destruct (_ && _).
Qed.

(** One turn of the replay loop: the assertion of [bet] holds, and what
    enters the ledger refers to the race of this turn. *)
Lemma replay_race_step (i : nat) race s :
  let r := replay_race TO_BE_PLACED i race s in
  r.1 ≠ Raise AssertionError ∧
  ∃ new, _bets r.2 = _bets s ++ new ∧ Forall (placed_on race) new.
Proof.
  intros r. subst r. rewrite replay_race_cases.
  set (s0 := set_curr race s).
  assert (∃ new, (handle_race TO_BE_PLACED race s0).1 ≠ Raise AssertionError ∧
            _bets (handle_race TO_BE_PLACED race s0).2 = _bets s ++ new ∧
            Forall (placed_on race) new) as (new & Hr & Hb & Hn).
  { rewrite handle_race_cases.
    destruct (left_out TO_BE_PLACED race).
    { exists []. simpl. by rewrite app_nil_r. }
    destruct (decide_bets_decided race s0)
      as [Hs|e Hs Hv|vw e Hs Hv Hc|vw coll Hs Hv Hc Hf|vw coll e Hs Hv Hc Hf He
         |vw coll curr Hs Hv Hc Hf Hcurr He]; simpl.
    - exists []. by rewrite app_nil_r.
    - exists []. rewrite app_nil_r. apply vwao_values_raises in Hv. by subst e.
    - exists []. rewrite app_nil_r. apply collateral_raises in Hc. by subst e.
    - exists []. by rewrite app_nil_r.
    - exfalso. simpl in He.
      destruct He as [[? _]|(curr & [= <-] & Hne & _)]; done.
    - eexists. repeat split; [done|].
      simpl in Hcurr. injection Hcurr as <-.
      apply Forall_forall. intros b (Eb & _ & Eo & Ew)%race_bets_elem.
      by repeat split. }
  destruct (handle_race TO_BE_PLACED race s0) as [[[]|e] s1]; simpl in *.
  - split; [done|]. exists new. split; [|done]. by destruct (_ && _).
  - split; [done|]. exists new. by split.
Qed.

(** The loop of lines 65-72. *)
Lemma replay_loop (races : list Race.t) : ∀ (i : nat) s,
  let r := for_enumerate (replay_race TO_BE_PLACED) i races s in
  r.1 ≠ Raise AssertionError ∧
  ∃ new, _bets r.2 = _bets s ++ new ∧
         Forall (λ b, ∃ race, race ∈ races ∧ placed_on race b) new.
Proof.
  induction races as [|race races IH]; intros i s; simpl.
  - split; [done|]. exists []. by rewrite app_nil_r.
  - unfold mbind, M_bind.
    destruct (replay_race_step i race s) as (Hr & new1 & Hb1 & Hn1).
    destruct (replay_race TO_BE_PLACED i race s) as [[[]|e] s1]; simpl in *.
    + destruct (IH (S i) s1) as (Hr2 & new2 & Hb2 & Hn2).
      split; [done|]. exists (new1 ++ new2).
      rewrite Hb2, Hb1, app_assoc. split; [done|].
      apply Forall_app. split.
      * eapply Forall_impl; [exact Hn1|]. intros b Hb. exists race.
        split; [by left | done].
      * eapply Forall_impl; [exact Hn2|]. intros b (race' & Hin & Hb).
        exists race'. split; [by right | done].
    + split; [done|]. exists new1. split; [done|].
      eapply Forall_impl; [exact Hn1|]. intros b Hb. exists race.
      split; [by left | done].
Qed.

(** A run leaves the asserted condition intact and only appends to the
    ledger, with entries that refer to replayed races. *)
Lemma bet_assertion_free_run (country : option string)
    (start_date end_date : option Z) s :
  let r := run TO_BE_PLACED country start_date end_date s in
  let races := find_races (train_coll (db s)) country start_date end_date in
  r.1 ≠ Raise AssertionError ∧
  ∃ new, _bets r.2 = _bets s ++ new ∧
         Forall (λ b, ∃ race, race ∈ races ∧ placed_on race b) new.
Proof.
  intros r races. subst r.
  unfold run, mbind, M_bind, gets, modify, raise, lift, record; simpl.
  destruct (find_vwao _ _ _) as [|row rows]; simpl.
  - split; [done|]. exists []. by rewrite app_nil_r.
  - match goal with |- context [for_enumerate _ 0 _ ?s1] =>
      destruct (replay_loop races 0 s1) as (Hr & new & Hb & Hn) end.
    split; [done|]. exists new. by split.
Qed.

(** C10.  The assertion at the entry of [bet] never fails during a run:
    [run] does not end in an [AssertionError], on any store and for any
    filter.  Every entry the run adds to the ledger refers to one of the
    replayed races, and within each turn of the loop to the race of that
    turn, which [run] has made the current one before calling the
    handler. *)
Theorem bet_assertion_holds_in_run (country : option string)
    (start_date end_date : option Z) s :
  let r := run TO_BE_PLACED country start_date end_date s in
  let races := find_races (train_coll (db s)) country start_date end_date in
  r.1 ≠ Raise AssertionError ∧
  (∃ new, _bets r.2 = _bets s ++ new ∧
          Forall (λ b, ∃ race, race ∈ races ∧ placed_on race b) new) ∧
  (∀ (i : nat) race s0,
     let r0 := replay_race TO_BE_PLACED i race s0 in
     r0.1 ≠ Raise AssertionError ∧
     ∃ new, _bets r0.2 = _bets s0 ++ new ∧ Forall (placed_on race) new).
Proof.
  intros r races.
  destruct (bet_assertion_free_run country start_date end_date s) as [Hr Hb].
  split; [done|]. split; [done|]. apply replay_race_step.
Qed.

End RunFacts.

(** ** make_scorecard *)

Lemma mapM_res_ok {A B} (f : A → res B) (l : list A) :
  Forall (λ x, ∃ y, f x = Ok y) l → ∃ k, mapM f l = Ok k.
Proof.
  induction 1 as [|x l [y Ey] _ [k Ek]].
  - by exists [].
  - exists (y :: k).
    change (mapM f (x :: l)) with (y ← f x; k ← mapM f l; mret (y :: k)).
    rewrite Ey. cbn [mbind res_bind]. by rewrite Ek.
Qed.

Lemma groupby_keys {A} (key : A → Z) (l : list A) :
  (groupby key l).*1 ≡ₚ remove_dups (key <$> l).
Proof.
  unfold groupby.
  assert (∀ ks : list Z, ((λ k, (k, filter (λ x, key x = k) l)) <$> ks).*1 = ks)
    as ->.
  { induction ks as [|k ks IH]; simpl; [done|]. f_equal. apply IH. }
  apply merge_sort_Permutation.
Qed.

Lemma groupby_group {A} (key : A → Z) (l : list A) (kv : Z * list A) :
  kv ∈ groupby key l →
  kv.2 = filter (λ x, key x = kv.1) l ∧ ∃ x, x ∈ l ∧ key x = kv.1.
Proof.
  unfold groupby. intros (k & -> & Hk)%list_elem_of_fmap. simpl.
  split; [done|].
  rewrite merge_sort_Permutation, elem_of_remove_dups in Hk.
  apply list_elem_of_fmap in Hk as (x & -> & Hx). by exists x.
Qed.

Lemma event_row_ok (kv : Z * list Bet.t) :
  kv.2 ≠ [] →
  ∃ coll off,
    event_row kv
    = Ok (Ev.mk kv.1 (Qsum (Bet.pnl <$> kv.2)) coll off (Qsum (Bet.pnl <$> kv.2))).
Proof.
  destruct kv as [k [|b g]]; [done|]. intros _.
  unfold event_row, calculate_collateral. simpl.
  eexists _, _. reflexivity.
Qed.

Lemma event_row_inv (kv : Z * list Bet.t) (e : Ev.t) :
  event_row kv = Ok e →
  Ev.event_id e = kv.1 ∧
  Ev.pnl_gross e = Qsum (Bet.pnl <$> kv.2) ∧
  Ev.pnl_net e = Ev.pnl_gross e.
Proof.
  unfold event_row, mbind, res_bind.
  destruct (calculate_collateral _); [|done].
  destruct (index _ _); [|done].
  by intros [= <-].
Qed.

Lemma commission_gross (comm : Q) (e : Ev.t) :
  Ev.pnl_gross (commission comm e) = Ev.pnl_gross e.
Proof. unfold commission. by destruct (Qltb _ _). Qed.

(** The frame before and after the commission step. *)
Lemma events_frame_inv (bets : list Bet.t) (comm : Q) (events : list Ev.t) :
  events_frame bets comm = Ok events →
  ∃ rows,
    events = commission comm <$> rows ∧
    Forall2 (λ kv e, event_row kv = Ok e) (groupby Bet.event_id bets) rows.
Proof.
  unfold events_frame. destruct bets as [|b bets]; [done|].
  unfold mbind, res_bind.
  destruct (mapM _ _) as [rows|] eqn:E; [|done].
  intros [= <-]. exists rows. split; [done|]. by apply mapM_res_Forall2.
Qed.

(** Summing group by group gives the sum of the whole column. *)
Lemma Qsum_zeros {A} (l : list A) : (Qsum ((λ _, 0%Q) <$> l) == 0)%Q.
Proof. induction l as [|x l IH]; simpl; [done|]. rewrite IH. lra. Qed.

Lemma Qsum_groups_cons (b : Bet.t) (bets : list Bet.t) (ks : list Z) :
  NoDup ks →
  (Qsum ((λ k, Qsum (Bet.pnl <$> filter (λ x, Bet.event_id x = k) (b :: bets))) <$> ks)
   == (if bool_decide (Bet.event_id b ∈ ks) then Bet.pnl b else 0)
      + Qsum ((λ k, Qsum (Bet.pnl <$> filter (λ x, Bet.event_id x = k) bets)) <$> ks))%Q.
Proof.
  induction 1 as [|k ks Hk Hnd IH].
  - rewrite bool_decide_eq_false_2 by apply not_elem_of_nil. simpl. lra.
  - rewrite !fmap_cons. cbn [Qsum foldr]. fold (Qsum).
    change (foldr Qplus 0%Q) with Qsum. rewrite IH. rewrite filter_cons.
    destruct (decide (Bet.event_id b = k)) as [Ek|Hne].
    + rewrite (bool_decide_eq_true_2 (Bet.event_id b ∈ k :: ks))
        by (rewrite Ek; left).
      rewrite (bool_decide_eq_false_2 (Bet.event_id b ∈ ks))
        by (by rewrite Ek).
      rewrite fmap_cons. cbn [Qsum foldr]. change (foldr Qplus 0%Q) with Qsum.
      lra.
    + destruct (bool_decide (Bet.event_id b ∈ ks)) eqn:Hin.
      * apply bool_decide_eq_true_1 in Hin.
        rewrite bool_decide_eq_true_2 by (by right). lra.
      * apply bool_decide_eq_false_1 in Hin.
        rewrite bool_decide_eq_false_2; [lra|].
        intros [?|?]%elem_of_cons; done.
Qed.

Lemma Qsum_groups (bets : list Bet.t) (ks : list Z) :
  NoDup ks →
  (∀ b, b ∈ bets → Bet.event_id b ∈ ks) →
  (Qsum ((λ k, Qsum (Bet.pnl <$> filter (λ x, Bet.event_id x = k) bets)) <$> ks)
   == Qsum (Bet.pnl <$> bets))%Q.
Proof.
  intros Hnd. induction bets as [|b bets IH]; intros Hin.
  - simpl. apply Qsum_zeros.
  - rewrite Qsum_groups_cons by done.
    rewrite bool_decide_eq_true_2 by (apply Hin; left).
    rewrite IH by (intros b' Hb'; apply Hin; by right).
    rewrite fmap_cons, Qsum_cons. lra.
Qed.

Lemma groupby_rows_gross (bets : list Bet.t) (rows : list Ev.t) :
  Forall2 (λ kv e, event_row kv = Ok e) (groupby Bet.event_id bets) rows →
  Ev.pnl_gross <$> rows
  = (λ k, Qsum (Bet.pnl <$> filter (λ x, Bet.event_id x = k) bets))
    <$> merge_sort Z.le (remove_dups (Bet.event_id <$> bets)).
Proof.
  unfold groupby.
  generalize (merge_sort Z.le (remove_dups (Bet.event_id <$> bets))).
  intros ks. revert rows.
  induction ks as [|k ks IH]; intros rows Hf; inversion Hf as [|? e ? rows' He Hf'];
    subst; [done|].
  rewrite !fmap_cons. f_equal; [|by apply IH].
  by apply event_row_inv in He as (_ & -> & _).
Qed.

Lemma groupby_nonempty {A} (key : A → Z) (l : list A) (kv : Z * list A) :
  kv ∈ groupby key l → kv.2 ≠ [].
Proof.
  intros (Eg & x & Hx & Ek)%groupby_group. rewrite Eg. intros Hnil.
  assert (x ∈ filter (λ y, key y = kv.1) l) as Hin
    by (by apply list_elem_of_filter).
  rewrite Hnil in Hin. by apply elem_of_nil in Hin.
Qed.

Lemma events_rows_ok (bets : list Bet.t) :
  ∃ rows, mapM event_row (groupby Bet.event_id bets) = Ok rows.
Proof.
  apply mapM_res_ok, Forall_forall. intros kv Hkv%groupby_nonempty.
  destruct (event_row_ok kv Hkv) as (coll & off & E). by eexists.
Qed.

(** On a ledger with at least one bet the events frame gets built, and
    its gross figures add up to the sum of [pnl] over the ledger. *)
Lemma events_frame_gross_total (bets : list Bet.t) (comm : Q) :
  bets ≠ [] →
  ∃ events,
    events_frame bets comm = Ok events ∧ events ≠ [] ∧
    (Qsum (Ev.pnl_gross <$> events) == Qsum (Bet.pnl <$> bets))%Q.
Proof.
  intros Hne.
  destruct (events_rows_ok bets) as [rows Er].
  exists (commission comm <$> rows). split; [|split].
  - unfold events_frame. destruct bets; [done|]. by rewrite Er.
  - apply mapM_res_Forall2, Forall2_length in Er.
    unfold groupby in Er. rewrite length_fmap, merge_sort_Permutation in Er.
    destruct bets as [|b bets]; [done|].
    assert (Bet.event_id b ∈ remove_dups (Bet.event_id <$> b :: bets)) as Hin
      by (apply elem_of_remove_dups; left).
    destruct (remove_dups (Bet.event_id <$> b :: bets));
      [by apply elem_of_nil in Hin|].
    by destruct rows.
  - rewrite <- list_fmap_compose.
    rewrite (list_fmap_ext (Ev.pnl_gross ∘ commission comm) Ev.pnl_gross rows)
      by (intros; simpl; apply commission_gross).
    rewrite (groupby_rows_gross bets rows) by (by apply mapM_res_Forall2).
    apply Qsum_groups.
    + rewrite merge_sort_Permutation. apply NoDup_remove_dups.
    + intros b Hb. rewrite merge_sort_Permutation, elem_of_remove_dups.
      apply list_elem_of_fmap. by exists b.
Qed.

(** In every row of the events frame the gross figure is the sum of the
    pnl of the event's bets; the net figure is the gross one when that is
    zero or negative, and the gross one times [comm] when it is positive. *)
Lemma events_frame_commission (bets : list Bet.t) (comm : Q)
    (events : list Ev.t) (e : Ev.t) :
  events_frame bets comm = Ok events →
  e ∈ events →
  Ev.pnl_gross e
  = Qsum (Bet.pnl <$> filter (λ b, Bet.event_id b = Ev.event_id e) bets) ∧
  ((Ev.pnl_gross e <= 0)%Q → Ev.pnl_net e = Ev.pnl_gross e) ∧
  ((0 < Ev.pnl_gross e)%Q → Ev.pnl_net e = (Ev.pnl_gross e * comm)%Q).
Proof.
  intros (rows & -> & Hrows)%events_frame_inv
         (e0 & -> & He0)%list_elem_of_fmap.
  assert (∃ kv, kv ∈ groupby Bet.event_id bets ∧ event_row kv = Ok e0)
    as (kv & Hkv & Erow).
  { apply list_elem_of_lookup in He0 as [i Hi].
    destruct (Forall2_lookup_r _ _ _ _ _ Hrows Hi) as (kv & Hk & E).
    exists kv. split; [|done]. apply list_elem_of_lookup. by exists i. }
  apply event_row_inv in Erow as (Eid & Egross & Enet).
  apply groupby_group in Hkv as (Eg & _).
  assert (Ev.event_id (commission comm e0) = Ev.event_id e0) as Eid'
    by (unfold commission; by destruct (Qltb _ _)).
  rewrite commission_gross, Eid', Eid, Egross, Eg. split; [done|].
  rewrite <- Eg, <- Egross. unfold commission. rewrite Enet.
  destruct (Qltb 0 (Ev.pnl_gross e0)) eqn:Hpos; simpl.
  - apply Qltb_lt in Hpos. split; [intros; lra | done].
  - apply Qltb_ge in Hpos. split; [done | intros; lra].
Qed.

(** *** The rest of the builder *)

Lemma mapM_res_pure {A B} (f : A → B) (l : list A) :
  mapM (λ x, Ok (f x)) l = Ok (f <$> l).
Proof.
  induction l as [|x l IH]; [done|].
  change (mapM (λ x, Ok (f x)) (x :: l))
    with (y ← Ok (f x); k ← mapM (λ x, Ok (f x)) l; mret (y :: k)).
  cbn [mbind res_bind]. by rewrite IH.
Qed.

(** Line 97 without a binding for [datetime]: the first call of the lambda
    fails. *)
Lemma daily_pnl_unbound (events : list Ev.t) :
  events ≠ [] → daily_pnl None events = Raise NameError.
Proof. by destruct events. Qed.

(** Lines 98-99 with a binding: [rename] leaves the columns [pnl_gross] and
    [pnl_net] under their names, and there is no column [gross] to read. *)
Lemma daily_pnl_columns (day : Z → Z) (events : list Ev.t) :
  ∃ daily, daily_pnl (Some day) events = Ok daily ∧
           (columns daily).*1 = ["pnl_gross"; "pnl_net"] ∧
           column "gross" daily = Raise KeyError.
Proof.
  unfold daily_pnl, midnight.
  rewrite (mapM_res_pure (λ e, day (Ev.scheduled_off e))).
  eexists. split; [reflexivity|]. by split.
Qed.

(** The builder returns on no ledger: the empty ledger fails at the
    [groupby] of line 92; any other ledger gets its events frame built and
    then fails at line 97 when [datetime] is unbound and at line 99 when it
    is bound. *)
Lemma make_scorecard_raises (datetime : option (Z → Z)) (bets : list Bet.t)
    (comm : Q) :
  make_scorecard datetime bets comm =
  Raise (match bets, datetime with
         | [], _ => KeyError
         | _, None => NameError
         | _, Some _ => KeyError
         end).
Proof.
  unfold make_scorecard.
  destruct bets as [|b bets]; [done|].
  destruct (events_frame_gross_total (b :: bets) comm) as (events & -> & Hne & _);
    [done|].
  cbn [mbind res_bind]. destruct datetime as [day|].
  - destruct (daily_pnl_columns day events) as (daily & -> & _ & Ec).
    cbn [mbind res_bind]. by rewrite Ec.
  - by rewrite daily_pnl_unbound.
Qed.

(** C6.  The ledger of [mixed_season] holds three bets on event 4 and three
    on event 5.  Lines 86-94 build the events frame of it, one row per
    event whose gross figure is the sum of the pnl of the event's bets, and
    the gross figures add up to the sum of [pnl] over the ledger.  The
    builder does not return it: it raises [NameError] at line 97 when the
    module was imported, and [KeyError] at line 99 when it runs as a
    script, whatever [datetime] then computes. *)
Theorem scorecard_builder_loses_gross_totals :
  Bet.event_id <$> mixed_ledger = [4; 4; 4; 5; 5; 5]%Z ∧
  events_frame mixed_ledger DEFAULT_COMM = Ok mixed_events ∧
  Ev.event_id <$> mixed_events = [4; 5]%Z ∧
  Forall (λ e, Ev.pnl_gross e
               = Qsum (Bet.pnl <$> filter (λ b, Bet.event_id b = Ev.event_id e)
                                     mixed_ledger)) mixed_events ∧
  (Qsum (Ev.pnl_gross <$> mixed_events) == Qsum (Bet.pnl <$> mixed_ledger))%Q ∧
  make_scorecard None mixed_ledger DEFAULT_COMM = Raise NameError ∧
  (∀ day, make_scorecard (Some day) mixed_ledger DEFAULT_COMM = Raise KeyError).
Proof.
  assert (events_frame mixed_ledger DEFAULT_COMM = Ok mixed_events) as Ef
    by (vm_compute; reflexivity).
  split; [vm_compute; reflexivity|]. split; [exact Ef|].
  split; [vm_compute; reflexivity|]. split; [|split; [|split]].
  - apply Forall_forall. intros e He.
    by destruct (events_frame_commission _ _ _ e Ef He) as [Hg _].
  - destruct (events_frame_gross_total mixed_ledger DEFAULT_COMM)
      as (events & Ef' & _ & Hsum); [discriminate|].
    rewrite Ef in Ef'. by injection Ef' as <-.
  - apply (make_scorecard_raises None mixed_ledger).
  - intros day. apply (make_scorecard_raises (Some day) mixed_ledger).
Qed.


(** ** The bet record *)

#[global] Instance user_prefix_inj : Inj (=) (=) (String.append "user_").
Proof. intros a b E. simpl in E. by simplify_eq. Qed.

Section RecordFacts.
Context {H : Type}.
Implicit Types (s : Strategy H) (uf : option (gmap string val)).

(** The record a successful call of [bet] appends: the event id (that of
    the current race), the selection, the scheduled time of the current
    race, the stake, the taken odds, the pnl that follows the flag of line
    31, each user field under its name prefixed with [user_], and, under
    [win], the winner list of the current race. *)
Lemma bet_record_entries (event_id selection : Z) (amount : Q) uf s s' :
  bet event_id selection amount uf s = (Ok tt, s') →
  ∃ curr odds b,
    _curr s = Some curr ∧
    get_value (vwao s) event_id selection = Ok odds ∧
    _bets s' = _bets s ++ [b] ∧
    Bet.event_id b = event_id ∧ event_id = Race.event_id curr ∧
    Bet.selection b = selection ∧
    Bet.scheduled_off b = Race.scheduled_off curr ∧
    Bet.amount b = amount ∧
    Bet.odds b = odds ∧
    Bet.pnl b = bet_pnl (Z.b2z (is_winner selection (Race.winners curr))) amount odds ∧
    Bet.win b = Race.winners curr ∧
    ∀ k, Bet.extra b !! ("user_" +:+ k) = default ∅ uf !! k.
Proof.
  rewrite bet_cases. intros E.
  destruct (_curr s) as [curr|]; [|done].
  destruct (Z.eqb_spec event_id (Race.event_id curr)) as [Ee|]; [|done].
  destruct (get_value (vwao s) event_id selection) as [odds|]; [|done].
  injection E as <-.
  eexists curr, odds, _. repeat split; try done.
  intros k. simpl. apply lookup_kmap, _.
Qed.

End RecordFacts.

(** C9.  The ledger of the replay of [season] holds the three bets on the
    fourth meeting, which runner 1 won.  The records carry the event id,
    the scheduled time, the selection, the quote taken as odds and a pnl
    that follows the flag of line 31: the back of runner 1 and the lays of
    runners 2 and 3 all gain.  Under [win], though, line 40 stores the
    winner list of the race: the entry is [[1]] in all three records, the
    same for the bet on the winner and the bets on the losers, so that no
    reading of the entry gives the flag of the record's own selection. *)
Theorem win_entry_is_winner_list :
  _bets season_replay.2 = season_ledger ∧
  Bet.event_id <$> season_ledger = [4; 4; 4]%Z ∧
  Bet.scheduled_off <$> season_ledger = [40; 40; 40]%Z ∧
  Bet.selection <$> season_ledger = [1; 2; 3]%Z ∧
  Bet.odds <$> season_ledger = [2; 4; 4]%Q ∧
  Race.winners (meeting 4) = [1]%Z ∧
  (λ b, is_winner (Bet.selection b) (Race.winners (meeting 4))) <$> season_ledger
  = [true; false; false] ∧
  Forall (λ b, Bet.pnl b
               = bet_pnl (Z.b2z (is_winner (Bet.selection b) (Race.winners (meeting 4))))
                         (Bet.amount b) (Bet.odds b)) season_ledger ∧
  Bet.win <$> season_ledger = [[1]; [1]; [1]]%Z ∧
  (∀ flag : list Z → bool,
     ¬ ∀ b, b ∈ season_ledger →
            flag (Bet.win b) = is_winner (Bet.selection b) (Race.winners (meeting 4))).
Proof.
  repeat (apply conj; [vm_compute; reflexivity|]).
  apply conj; [by repeat constructor|].
  apply conj; [vm_compute; reflexivity|].
  intros flag Hflag.
  unfold season_ledger in Hflag.
  pose proof (Hflag _ ltac:(left)) as H1.
  pose proof (Hflag _ ltac:(right; left)) as H2.
  vm_compute in H1, H2.
  congruence.
Qed.

(** ** A race without quotes *)

Section MissingQuote.
Context {H : Type} {HM : HorseModel H} {RM : RiskModel}.
Variable TO_BE_PLACED : string.
Implicit Types (s : Strategy H) (race : Race.t).

(** [handle_race] has no handler around the lookup of line 135: on a race
    it bets on, a missing event escapes as [KeyError] before the skill
    model is fitted. *)
Lemma handle_race_missing_quote race s :
  left_out TO_BE_PLACED race = false →
  seasoned (hm s) (Race.selection race) = true →
  filter (λ x, Vwao.event_id x = Race.event_id race) (vwao s) = [] →
  handle_race TO_BE_PLACED race s = (Raise KeyError, s).
Proof.
  intros Hg Hs Hq. rewrite handle_race_cases, Hg.
  unfold decide_bets, mbind, M_bind, gets, lift. simpl.
  by rewrite Hs, vwao_values_missing.
Qed.

(** [handle_race2] catches it, logs a warning and returns. *)
Lemma handle_race2_missing_quote race s :
  Race.event race = TO_BE_PLACED →
  filter (λ x, Vwao.event_id x = Race.event_id race) (vwao s) = [] →
  handle_race2 TO_BE_PLACED race s =
  (Ok tt, set_journal (journal s ++ [Warn (NoVWAO (Race.event_id race))]) s).
Proof.
  intros He Hq. unfold handle_race2.
  rewrite He, String.eqb_refl. simpl.
  unfold try_except, mbind, M_bind, gets, lift, ix. simpl.
  by rewrite Hq.
Qed.

End MissingQuote.

(** C2.  The replay of [gap_season]: the loaded snapshot has no quote for
    the fourth meeting, whose runners have three runs each.  The run ends
    in [KeyError] at that race: the race is not fitted, the fifth meeting
    is never replayed, and nothing is logged about the missing quote.  On
    the state the run stopped in, [handle_race2] given a market without
    quotes logs the warning and returns. *)
Theorem missing_quote_aborts_replay :
  let s := gap_replay.2 in
  Vwao.event_id <$> vwao s = [5; 5; 5]%Z ∧
  filter (λ x, Vwao.event_id x = 4%Z) (vwao s) = [] ∧
  gap_replay.1 = Raise KeyError ∧
  _bets s = [] ∧
  hm s = form ∧
  journal s = [Info (RunningStrategy 5); Fitted 1; Fitted 2; Fitted 3] ∧
  handle_race2 to_be_placed place_market s
  = (Ok tt, set_journal (journal s ++ [Warn (NoVWAO 8)]) s).
Proof.
  cbv zeta.
  repeat (apply conj; [vm_compute; reflexivity|]).
  vm_compute; reflexivity.
Qed.

(** ** Counterexamples *)

(** C3 fails on a race with two runners: the guard returns before line
    159, so the race is not fitted. *)
Lemma short_field_is_not_fitted :
  let s := fresh season in
  let r := handle_race (HM:=Frequency) (RM:=Ridge) to_be_placed duel s in
  (Race.n_runners duel < 3)%Z ∧
  r.1 = Ok tt ∧
  _bets r.2 = _bets s ∧
  hm r.2 ≠ @fit_race _ Frequency (hm s) duel.
Proof.
  cbv zeta.
  repeat (apply conj; [vm_compute; reflexivity|]).
  vm_compute. discriminate.
Qed.

(** ** The theorems at work on the reference season *)

(** With the ridge stakes the fourth meeting is bet on in full. *)
Example placement_example :
  let r := handle_race (HM:=Frequency) (RM:=Ridge) to_be_placed (meeting 4) at_the_post in
  r.1 = Ok tt ∧
  collateral (stakes (HM:=Frequency) (RM:=Ridge) form [1; 2; 3]%Z [2; 4; 4]%Q)
             (implied [2; 4; 4]%Q) = Ok (-384000 # 256000)%Q ∧
  Bet.selection <$> _bets r.2 = [1; 2; 3]%Z ∧
  Bet.amount <$> _bets r.2 = [20 # 40; -40 # 80; -40 # 80]%Q ∧
  journal r.2 = [Info (PlacingBets (384000 # 256000)); Placed 4 1; Placed 4 2;
                 Placed 4 3; Fitted 4].
Proof.
  cbv zeta.
  repeat (apply conj; [vm_compute; reflexivity|]).
  vm_compute; reflexivity.
Qed.

(** With the geared stakes the floor is breached and nothing is placed. *)
Example breach_example :
  let r := handle_race (HM:=Frequency) (RM:=Geared) to_be_placed (meeting 4) at_the_post in
  r.1 = Ok tt ∧
  _bets r.2 = [] ∧
  journal r.2 = [Info (SkippingBets (-38400000 # 256000)); Fitted 4].
Proof.
  cbv zeta.
  repeat (apply conj; [vm_compute; reflexivity|]).
  vm_compute; reflexivity.
Qed.

(** The geared stakes at the fourth meeting: the worst case is -150, at
    or below the floor, and the ledger stays as it was. *)
Lemma stake_placement_all_or_nothing_witness :
  vwao_values (vwao at_the_post) 4 [1; 2; 3]%Z = Ok [2; 4; 4]%Q ∧
  collateral (stakes (HM:=Frequency) (RM:=Geared) form [1; 2; 3]%Z [2; 4; 4]%Q)
             (implied [2; 4; 4]%Q) = Ok (-38400000 # 256000)%Q ∧
  (-38400000 # 256000 <= -60)%Q ∧
  _bets (handle_race (HM:=Frequency) (RM:=Geared) to_be_placed (meeting 4) at_the_post).2
  = _bets at_the_post.
Proof.
  assert (vwao_values (vwao at_the_post) 4 [1; 2; 3]%Z = Ok [2; 4; 4]%Q) as Hv
    by (vm_compute; reflexivity).
  assert (collateral (stakes (HM:=Frequency) (RM:=Geared) form [1; 2; 3]%Z [2; 4; 4]%Q)
            (implied [2; 4; 4]%Q) = Ok (-38400000 # 256000)%Q) as Hc
    by (vm_compute; reflexivity).
  assert (-38400000 # 256000 <= -60)%Q as Hf by (vm_compute; discriminate).
  repeat (apply conj; [assumption|]).
  exact (proj2 (stake_placement_all_or_nothing (HM:=Frequency) (RM:=Geared)
                  to_be_placed (meeting 4) at_the_post) _ _ Hv Hc Hf).
Defined.

(** The duel is left out altogether; the first meeting, whose runners
    have no run yet, is fitted without a bet. *)
Lemma ineligible_race_handling_witness :
  handle_race (HM:=Frequency) (RM:=Ridge) to_be_placed duel (fresh season)
  = (Ok tt, fresh season) ∧
  handle_race (HM:=Frequency) (RM:=Ridge) to_be_placed (meeting 1) (fresh season)
  = (Ok tt, set_journal (journal (fresh season) ++ [Fitted 1])
              (set_hm (@fit_race _ Frequency (hm (fresh season)) (meeting 1))
                      (fresh season))).
Proof.
  split.
  - apply (proj1 (ineligible_race_handling (HM:=Frequency) (RM:=Ridge)
                    to_be_placed duel (fresh season))).
    right. vm_compute. reflexivity.
  - apply (proj2 (ineligible_race_handling (HM:=Frequency) (RM:=Ridge)
                    to_be_placed (meeting 1) (fresh season))).
    + vm_compute. discriminate.
    + vm_compute. discriminate.
    + apply Exists_cons_hd. vm_compute. discriminate.
Defined.

(** Runner 1 at the fourth meeting: the model says 2/3, the market 1/2,
    the estimate handed to the optimiser is 0.55, and the three stakes
    placed are the optimiser's answer on the capped estimates. *)
Lemma blend_caps_towards_market_witness :
  ∃ p' bi,
    p' !! 0%nat = Some bi ∧ (bi == 1 / 2 * (1 + 0.1))%Q ∧
    Bet.amount <$> _bets (handle_race (HM:=Frequency) (RM:=Ridge) to_be_placed
                            (meeting 4) at_the_post).2
    = nwin1_l2reg (RiskModel:=Ridge) p' [1 / 2; 1 / 4; 1 / 4]%Q 0.1%Q.
Proof.
  destruct (blend_caps_towards_market (HM:=Frequency) (RM:=Ridge) to_be_placed
              (meeting 4) at_the_post [2; 4; 4]%Q eq_refl eq_refl eq_refl)
    as (p' & _ & Hcap & Hdone).
  destruct (Hcap 0%nat (4 # 6)%Q 2%Q eq_refl eq_refl) as (bi & Hb & Habove & _).
  exists p', bi. split; [exact Hb|]. split.
  { apply Habove. vm_compute. reflexivity. }
  cbv zeta in Hdone.
  assert (_bets (handle_race (HM:=Frequency) (RM:=Ridge) to_be_placed
                   (meeting 4) at_the_post).2 ≠ []) as Hne
    by (vm_compute; discriminate).
  destruct Hdone as [(e & _ & Hr)|[(coll & _ & _ & _ & Hb' & _)
                                  |(coll & evs & new & _ & _ & _ & Hb' & Hnew)]].
  - rewrite Hr in Hne. by destruct Hne.
  - rewrite Hb' in Hne. by destruct Hne.
  - rewrite Hb' in Hne |- *. simpl in Hne |- *.
    destruct Hnew as [->|[Ha _]]; [by destruct Hne | exact Ha].
Defined.

(** Half a unit on runner 1, the winner, at odds 2. *)
Lemma bet_realized_pnl_witness :
  ∃ b, _bets (bet 4 1 0.5%Q None at_the_post).2 = [b] ∧
       (Bet.pnl b == 0.5 * (2 - 1))%Q.
Proof.
  destruct (bet_realized_pnl 4 1 0.5%Q None at_the_post
              (bet 4 1 0.5%Q None at_the_post).2 eq_refl)
    as (curr & odds & b & Hc & Hq & Hb & _ & _ & _ & Hwin & _).
  injection Hc as <-. vm_compute in Hq. injection Hq as <-.
  exists b. split; [exact Hb|]. apply Hwin. vm_compute. left.
Defined.

(** * Further properties of the engine *)

(** ** Quote lookup *)

Lemma get_value_Ok (rows : list Vwao.t) (event_id selection : Z) (o : Q) :
  get_value rows event_id selection = Ok o →
  ∃ row, row ∈ rows ∧ Vwao.event_id row = event_id ∧
         Vwao.selection row = selection ∧ Vwao.vwao row = o.
Proof.
  unfold get_value.
  destruct (list_find _ rows) as [[i row]|] eqn:E; [|done].
  intros [= <-]. apply list_find_Some in E as (Hi & [He Hs] & _).
  exists row. repeat split; try done. apply list_elem_of_lookup. by exists i.
Qed.

Lemma get_value_Raise (rows : list Vwao.t) (event_id selection : Z) (e : exn) :
  get_value rows event_id selection = Raise e ↔
  e = KeyError ∧
  ∀ row, row ∈ rows →
         ¬ (Vwao.event_id row = event_id ∧ Vwao.selection row = selection).
Proof.
  unfold get_value.
  destruct (list_find _ rows) as [[i row]|] eqn:E.
  - split; [done|]. intros [_ Hno].
    apply list_find_Some in E as (Hi & Hrow & _).
    exfalso. apply (Hno row); [|done]. apply list_elem_of_lookup. by exists i.
  - apply list_find_None in E. rewrite Forall_forall in E.
    split; [by intros [= <-] | by intros [-> _]].
Qed.

Lemma user_prefix_size (m : gmap string val) :
  size (kmap (M2:=gmap string) (String.append "user_") m) = size m.
Proof.
  induction m as [|k v m Hk _ IH] using map_first_key_ind.
  - by rewrite kmap_empty.
  - rewrite kmap_insert by apply _.
    rewrite !map_size_insert_None; [by rewrite IH | done |].
    by rewrite lookup_kmap by apply _.
Qed.

Section BetEdges.
Context {H : Type}.
Implicit Types (s : Strategy H) (uf : option (gmap string val)).

(** X1.  A call of [bet] either appends exactly one record to the ledger,
    leaving the records before it, the store, the quotes, the current race
    and the skill model as they were, or raises and leaves the whole
    strategy untouched.  It raises [AssertionError] exactly when the
    current race has another event id, and [KeyError] exactly when the
    assertion holds and the snapshot has no row for the event and the
    selection. *)
Theorem bet_appends_or_leaves_untouched (event_id selection : Z) (amount : Q)
    uf s :
  let r := bet event_id selection amount uf s in
  ((r.1 = Ok tt ∧
    (∃ b, _bets r.2 = _bets s ++ [b]) ∧
    db r.2 = db s ∧ vwao r.2 = vwao s ∧
    _total_matched r.2 = _total_matched s ∧
    _curr r.2 = _curr s ∧ hm r.2 = hm s) ∨
   (∃ e, r.1 = Raise e ∧ r.2 = s)) ∧
  (r.1 = Raise AssertionError ↔
   ∃ curr, _curr s = Some curr ∧ Race.event_id curr ≠ event_id) ∧
  (r.1 = Raise KeyError ↔
   ∃ curr, _curr s = Some curr ∧ Race.event_id curr = event_id ∧
     ∀ row, row ∈ vwao s →
            ¬ (Vwao.event_id row = event_id ∧ Vwao.selection row = selection)).
Proof.
  intros r. subst r. rewrite bet_cases.
  destruct (_curr s) as [curr|] eqn:Ec.
  2:{ split; [right; by eexists|]. split; split; try done; by intros (? & [=] & _). }
  destruct (Z.eqb_spec event_id (Race.event_id curr)) as [Ee|Ee].
  2:{ split; [right; by eexists|]. split; split; try done.
      - intros _. exists curr. split; [done|congruence].
      - intros (c & [= <-] & He & _). congruence. }
  destruct (get_value (vwao s) event_id selection) as [o|e] eqn:Eq.
  - split; [left; simpl; repeat split; try done; by eexists|].
    split; split; try done.
    + intros (c & [= <-] & Hne). congruence.
    + intros (c & _ & _ & Hno).
      apply get_value_Ok in Eq as (row & Hin & He & Hs & _).
      by destruct (Hno row Hin).
  - apply get_value_Raise in Eq as [-> Hno].
    split; [right; by eexists|]. split; split; try done.
    + intros (c & [= <-] & Hne). congruence.
    + intros _. exists curr. by repeat split.
Qed.

(** X2.  The entries of a placed record outside its seven fixed fields are
    the user fields of the call under their names prefixed with [user_],
    and nothing else: a key that is not such a prefixed name is absent. *)
Theorem bet_extra_is_user_fields (event_id selection : Z) (amount : Q) uf s s' :
  bet event_id selection amount uf s = (Ok tt, s') →
  ∃ b, _bets s' = _bets s ++ [b] ∧
       (∀ k v, Bet.extra b !! k = Some v ↔
               ∃ k', k = "user_" +:+ k' ∧ default ∅ uf !! k' = Some v) ∧
       size (Bet.extra b) = size (default ∅ uf).
Proof.
  rewrite bet_cases.
  destruct (_curr s) as [curr|]; [|done].
  destruct (event_id =? Race.event_id curr)%Z; [|done].
  destruct (get_value (vwao s) event_id selection) as [o|]; [|done].
  intros [= <-]. eexists. split; [done|]. simpl. split.
  - intros k v. rewrite lookup_kmap_Some by apply _. naive_solver.
  - apply user_prefix_size.
Qed.

End BetEdges.

(** ** Jockey.handle_race2 *)

Lemma foldl_Qmin_spec (l : list Q) : ∀ x,
  foldl Qmin x l ∈ x :: l ∧ ∀ y, y ∈ x :: l → (foldl Qmin x l <= y)%Q.
Proof.
  induction l as [|z l IH]; intros x; simpl.
  - split; [left|]. intros y ->%list_elem_of_singleton. apply Qle_refl.
  - destruct (IH (Qmin x z)) as [Hin Hle]. split.
    + apply elem_of_cons in Hin as [->|Hin]; [|by do 2 right].
      unfold Qmin. destruct (Qle_bool x z); [left | right; left].
    + intros y Hy.
      assert (Qmin x z <= x ∧ Qmin x z <= z)%Q as [Hx Hz].
      { unfold Qmin. destruct (Qle_bool x z) eqn:E.
        - apply Qle_bool_iff in E. split; [apply Qle_refl | done].
        - split; [|apply Qle_refl].
          apply Qlt_le_weak, Qnot_le_lt. intros Hle'.
          apply Qle_bool_iff in Hle'. congruence. }
      apply elem_of_cons in Hy as [->|[->|Hy]%elem_of_cons].
      * eapply Qle_trans; [|exact Hx]. apply Hle. left.
      * eapply Qle_trans; [|exact Hz]. apply Hle. left.
      * apply Hle. by right.
Qed.

(** [np.min] returns an element of the array that no element is below. *)
Lemma np_min_spec (l : list Q) (lo : Q) :
  np_min l = Ok lo → lo ∈ l ∧ ∀ y, y ∈ l → (lo <= y)%Q.
Proof.
  destruct l as [|x l]; [done|]. intros [= <-]. apply foldl_Qmin_spec.
Qed.

Lemma ix_Ok (rows slice : list Vwao.t) (event_id : Z) :
  ix rows event_id = Ok slice →
  slice ≠ [] ∧ ∀ row, row ∈ slice ↔ row ∈ rows ∧ Vwao.event_id row = event_id.
Proof.
  intros E. pose proof (ix_slice _ _ _ E) as ->. split.
  - unfold ix in E. by destruct (filter _ rows).
  - intros row. rewrite list_elem_of_filter. tauto.
Qed.

Lemma ix_Raise (rows : list Vwao.t) (event_id : Z) (e : exn) :
  ix rows event_id = Raise e ↔
  e = KeyError ∧ ∀ row, row ∈ rows → Vwao.event_id row ≠ event_id.
Proof.
  unfold ix. destruct (filter _ rows) as [|x slice] eqn:E.
  - split; [|by intros [-> _]]. intros [= <-]. split; [done|].
    intros row Hin He.
    assert (row ∈ filter (λ r, Vwao.event_id r = event_id) rows) as Hf
      by (by apply list_elem_of_filter).
    rewrite E in Hf. by apply elem_of_nil in Hf.
  - split; [done|]. intros [_ Hno].
    assert (x ∈ filter (λ r, Vwao.event_id r = event_id) rows) as Hf
      by (rewrite E; left).
    apply list_elem_of_filter in Hf as [He Hin]. by destruct (Hno x Hin).
Qed.

(** The selection [handle_race2] picks: quoted in the slice, at odds no
    row of the slice is below. *)
Lemma favourite_spec (slice : list Vwao.t) :
  slice ≠ [] →
  ∃ row, favourite slice = Ok (Vwao.selection row) ∧ row ∈ slice ∧
         ∀ row', row' ∈ slice → (Vwao.vwao row <= Vwao.vwao row')%Q.
Proof.
  intros Hne. unfold favourite.
  destruct (np_min (Vwao.vwao <$> slice)) as [lo|] eqn:Emin.
  2:{ by destruct slice. }
  apply np_min_spec in Emin as [Hin Hle]. simpl.
  apply list_elem_of_fmap in Hin as (r0 & -> & Hr0).
  destruct (list_find _ slice) as [[i row]|] eqn:Ef.
  - apply list_find_Some in Ef as (Hi & Heq & _).
    exists row. split; [done|]. split.
    + apply list_elem_of_lookup. by exists i.
    + intros row' Hrow'. apply Qeq_bool_iff in Heq. rewrite Heq.
      apply Hle, list_elem_of_fmap. by exists row'.
  - apply list_find_None in Ef. rewrite Forall_forall in Ef.
    destruct (Ef r0 Hr0). apply Qeq_bool_iff. reflexivity.
Qed.

Section PlaceHandler.
Context {H : Type}.
Variable TO_BE_PLACED : string.
Implicit Types (s : Strategy H) (race : Race.t).

Lemma handle_race2_cases race s :
  handle_race2 TO_BE_PLACED race s =
  if String.eqb (Race.event race) TO_BE_PLACED then
    match ix (vwao s) (Race.event_id race) with
    | Raise _ =>
      (Ok tt, set_journal (journal s ++ [Warn (NoVWAO (Race.event_id race))]) s)
    | Ok slice =>
      match favourite slice with
      | Ok sel =>
        match bet (Race.event_id race) sel 2%Q None s with
        | (Raise KeyError, s') =>
          (Ok tt, set_journal (journal s' ++ [Warn (NoVWAO (Race.event_id race))]) s')
        | r => r
        end
      | Raise KeyError =>
        (Ok tt, set_journal (journal s ++ [Warn (NoVWAO (Race.event_id race))]) s)
      | Raise e => (Raise e, s)
      end
    end
  else (Ok tt, s).
Proof.
  unfold handle_race2.
  destruct (String.eqb _ _); [|done]. simpl.
  unfold try_except, mbind, M_bind, gets, lift. simpl.
  destruct (ix (vwao s) (Race.event_id race)) as [slice|e] eqn:Ei.
  - destruct (favourite slice) as [sel|e]; [|by destruct e].
    destruct (bet _ _ _ _ s) as [[[]|e] s1]; [done|by destruct e].
  - apply ix_Raise in Ei as [-> _]. done.
Qed.

(** X3.  [handle_race2] never lets a [KeyError] escape, never touches the
    skill model, the quotes, the store or the current race, and adds at
    most one record to the ledger, a bet of 2 on the race; on a race that
    is not a to-be-placed market it does nothing at all. *)
Theorem handle_race2_effect race s :
  let r := handle_race2 TO_BE_PLACED race s in
  r.1 ≠ Raise KeyError ∧
  hm r.2 = hm s ∧ vwao r.2 = vwao s ∧ db r.2 = db s ∧ _curr r.2 = _curr s ∧
  (∃ new, _bets r.2 = _bets s ++ new ∧ (length new ≤ 1)%nat ∧
          Forall (λ b, Bet.amount b = 2%Q ∧
                       Bet.event_id b = Race.event_id race) new) ∧
  (Race.event race ≠ TO_BE_PLACED → r = (Ok tt, s)).
Proof.
  intros r. subst r. rewrite handle_race2_cases.
  assert (∀ s0 : Strategy H, ∃ new : list Bet.t,
            _bets s0 = _bets s0 ++ new ∧ (length new ≤ 1)%nat ∧
            Forall (λ b, Bet.amount b = 2%Q ∧
                         Bet.event_id b = Race.event_id race) new) as Hnil.
  { intros s0. exists []. rewrite app_nil_r. repeat split; [simpl; lia | constructor]. }
  destruct (String.eqb_spec (Race.event race) TO_BE_PLACED) as [Ee|Ee].
  2:{ simpl. repeat split; try done; try apply Hnil. }
  destruct (ix (vwao s) (Race.event_id race)) as [slice|e] eqn:Ei.
  2:{ simpl. repeat split; try done; try apply Hnil. }
  destruct (ix_Ok _ _ _ Ei) as [Hne _].
  destruct (favourite_spec slice Hne) as (row & -> & _).
  rewrite bet_cases.
  destruct (_curr s) as [curr|] eqn:Ec; [|simpl; repeat split; try done; try apply Hnil].
  destruct (Race.event_id race =? Race.event_id curr)%Z;
    [|simpl; repeat split; try done; try apply Hnil].
  destruct (get_value _ _ _) as [o|e] eqn:Eg.
  - simpl. repeat split; try done.
    eexists. split; [reflexivity|]. split; [simpl; lia|]. by repeat constructor.
  - apply get_value_Raise in Eg as [-> _]. simpl.
    repeat split; try done; try apply Hnil.
Qed.

(** X4.  On a to-be-placed market that is the current race and has quotes
    in the snapshot, [handle_race2] places exactly one bet: 2 units on a
    selection quoted for the event at odds that no other quote of the
    event is below. *)
Theorem handle_race2_backs_favourite race curr s :
  Race.event race = TO_BE_PLACED →
  _curr s = Some curr →
  Race.event_id curr = Race.event_id race →
  (∃ row0, row0 ∈ vwao s ∧ Vwao.event_id row0 = Race.event_id race) →
  ∃ b row,
    handle_race2 TO_BE_PLACED race s
    = (Ok tt, set_journal (journal s ++ [Placed (Race.event_id race) (Bet.selection b)])
                (set_bets (_bets s ++ [b]) s)) ∧
    Bet.amount b = 2%Q ∧
    Bet.event_id b = Race.event_id race ∧
    row ∈ vwao s ∧ Vwao.event_id row = Race.event_id race ∧
    Vwao.selection row = Bet.selection b ∧
    ∀ row', row' ∈ vwao s → Vwao.event_id row' = Race.event_id race →
            (Vwao.vwao row <= Vwao.vwao row')%Q.
Proof.
  intros Ee Hc Hid (row0 & Hin0 & He0).
  rewrite handle_race2_cases, Ee, String.eqb_refl.
  destruct (ix (vwao s) (Race.event_id race)) as [slice|e] eqn:Ei.
  2:{ apply ix_Raise in Ei as [_ Hno]. by destruct (Hno row0 Hin0). }
  destruct (ix_Ok _ _ _ Ei) as [Hne Hsl].
  destruct (favourite_spec slice Hne) as (row & -> & Hrow & Hmin).
  apply Hsl in Hrow as [Hrow Herow].
  rewrite bet_cases, Hc, (proj2 (Z.eqb_eq _ _)) by done.
  destruct (get_value (vwao s) (Race.event_id race) (Vwao.selection row))
    as [o|e] eqn:Eg.
  - exists (make_bet curr (Race.event_id race) (Vwao.selection row) 2 o ∅), row.
    split; [reflexivity|]. simpl.
    repeat split; try done.
    intros row' Hin' He'. apply Hmin, Hsl. by split.
  - apply get_value_Raise in Eg as [_ Hno].
    by destruct (Hno row Hrow).
Qed.

End PlaceHandler.

(** ** Jockey.handle_race *)

Section HandlerEdges.
Context {H : Type} {HM : HorseModel H} {RM : RiskModel}.
Variable TO_BE_PLACED : string.
Implicit Types (s : Strategy H) (race : Race.t).

(** X5.  [handle_race] never changes the store, the quote snapshot, the
    matched totals or the current race; the ledger and the journal only
    grow at their ends. *)
Theorem handle_race_frame race s :
  let r := handle_race TO_BE_PLACED race s in
  db r.2 = db s ∧ vwao r.2 = vwao s ∧
  _total_matched r.2 = _total_matched s ∧ _curr r.2 = _curr s ∧
  (∃ new, _bets r.2 = _bets s ++ new) ∧
  (∃ evs, journal r.2 = journal s ++ evs).
Proof.
  intros r. subst r. rewrite handle_race_cases.
  destruct (left_out TO_BE_PLACED race).
  { repeat split; exists []; by rewrite app_nil_r. }
  destruct (decide_bets_decided race s)
    as [Hs|e Hs Hv|vw e Hs Hv Hc|vw coll Hs Hv Hc Hf|vw coll e Hs Hv Hc Hf He
       |vw coll curr Hs Hv Hc Hf Hcurr He]; simpl;
    repeat split; try done;
    try (by exists []; rewrite app_nil_r);
    try (by eexists);
    try (eexists; by rewrite <- app_assoc).
Qed.

(** X6.  When [handle_race] extends the ledger, the new records list the
    runners of the race in order, each with the stake the optimiser gave
    it, with the very quote the stake was sized on as its odds, and with
    the capped estimate under [user_p]. *)
Theorem placed_bets_carry_sizing_inputs race s (new : list Bet.t) :
  _bets (handle_race TO_BE_PLACED race s).2 = _bets s ++ new →
  new ≠ [] →
  ∃ vw,
    vwao_values (vwao s) (Race.event_id race) (Race.selection race) = Ok vw ∧
    Bet.selection <$> new = Race.selection race ∧
    Bet.odds <$> new = vw ∧
    Bet.amount <$> new = stakes (hm s) (Race.selection race) vw ∧
    (λ b, Bet.extra b !! "user_p") <$> new
    = (λ x, Some (VNum x)) <$> capped (hm s) (Race.selection race) vw.
Proof.
  rewrite handle_race_cases. intros Hb Hne.
  assert (∀ s0 : Strategy H, _bets s0 = _bets s → _bets s0 = _bets s ++ new → False)
    as Hsame.
  { intros s0 E0 E1. rewrite E0 in E1.
    rewrite <- (app_nil_r (_bets s)) in E1 at 1.
    by apply app_inv_head in E1. }
  destruct (left_out TO_BE_PLACED race); [by destruct (Hsame s)|].
  destruct (decide_bets_decided race s)
    as [Hs|e Hs Hv|vw e Hs Hv Hc|vw coll Hs Hv Hc Hf|vw coll e Hs Hv Hc Hf He
       |vw coll curr Hs Hv Hc Hf Hcurr He]; simpl in Hb;
    try (by edestruct Hsame; [|exact Hb]).
  apply app_inv_head in Hb. subst new.
  pose proof (vwao_values_quotes _ _ _ _ Hv) as Hq.
  pose proof (Forall2_length _ _ _ Hq) as Hl. symmetry in Hl.
  pose proof (stakes_length (hm s) _ _ Hl) as Lw.
  pose proof (capped_length (hm s) _ _ Hl) as Lp.
  destruct (race_bets_columns curr (Race.event_id race) _ _ _ _ Lw Lp Hl)
    as (Es & Ea & Eo & Eu).
  exists vw. by repeat split.
Qed.

(** X7.  A call of [handle_race] that returns on a race passing the guard
    has fitted the skill model on that race; a call that raises has left
    the skill model and the ledger as they were, the exception is a
    [KeyError] only when the quote lookup of line 135 failed, and it is
    never an [IndexError]. *)
Theorem handle_race_fits_or_aborts race s :
  let r := handle_race TO_BE_PLACED race s in
  (r.1 = Ok tt → left_out TO_BE_PLACED race = false →
   hm r.2 = fit_race (hm s) race) ∧
  (∀ e, r.1 = Raise e →
        hm r.2 = hm s ∧ _bets r.2 = _bets s ∧
        e ≠ IndexError ∧
        (e = KeyError →
         vwao_values (vwao s) (Race.event_id race) (Race.selection race)
         = Raise KeyError)).
Proof.
  intros r. subst r. rewrite handle_race_cases.
  destruct (left_out TO_BE_PLACED race); [by split|].
  destruct (decide_bets_decided race s)
    as [Hs|e Hs Hv|vw e Hs Hv Hc|vw coll Hs Hv Hc Hf|vw coll e Hs Hv Hc Hf He
       |vw coll curr Hs Hv Hc Hf Hcurr He]; simpl; split; try done.
  - intros e' [= <-].
    pose proof (vwao_values_raises _ _ _ _ Hv) as ->. by repeat split.
  - intros e' [= <-].
    pose proof (collateral_raises _ _ _ Hc) as ->. by repeat split.
  - intros e' [= <-].
    destruct He as [[_ ->]|(c & _ & _ & ->)]; by repeat split.
Qed.

End HandlerEdges.

(** ** Strategy.run *)

#[global] Instance race_earlier_total : Total race_earlier.
Proof. intros a b. unfold race_earlier. lia. Qed.
#[global] Instance race_earlier_trans : Transitive race_earlier.
Proof. intros a b c. unfold race_earlier. lia. Qed.
#[global] Instance vwao_earlier_total : Total vwao_earlier.
Proof. intros a b. unfold vwao_earlier. lia. Qed.
#[global] Instance vwao_earlier_trans : Transitive vwao_earlier.
Proof. intros a b c. unfold vwao_earlier. lia. Qed.

Lemma in_window_spec (start_date end_date : option Z) (t : Z) :
  in_window start_date end_date t = true ↔
  (∀ d, start_date = Some d → (d ≤ t)%Z) ∧ (∀ d, end_date = Some d → (t ≤ d)%Z).
Proof.
  unfold in_window. rewrite andb_true_iff.
  destruct start_date as [a|], end_date as [b|]; simpl; rewrite ?Z.leb_le.
  - split; [intros [? ?]; split; by intros ? [= <-] | intros [Ha Hb]; auto].
  - split; [intros [? _]; split; [by intros ? [= <-] | done] | intros [Ha _]; auto].
  - split; [intros [_ ?]; split; [done | by intros ? [= <-]] | intros [_ Hb]; auto].
  - split; [intros _; by split | done].
Qed.

(** What the two queries of [run] return. *)
Lemma find_races_spec (races : list Race.t) (country : option string)
    (start_date end_date : option Z) :
  StronglySorted race_earlier (find_races races country start_date end_date) ∧
  ∀ r, r ∈ find_races races country start_date end_date ↔
       r ∈ races ∧
       (∀ d, start_date = Some d → (d ≤ Race.scheduled_off r)%Z) ∧
       (∀ d, end_date = Some d → (Race.scheduled_off r ≤ d)%Z) ∧
       (∀ c, country = Some c → Race.country r = c).
Proof.
  unfold find_races.
  split; [apply StronglySorted_merge_sort; apply _|].
  intros r. rewrite merge_sort_Permutation, list_elem_of_filter.
  rewrite andb_true_iff, in_window_spec.
  destruct country as [c|]; simpl.
  - rewrite String.eqb_eq. split.
    + intros [[[? ?] ?] ?]. repeat split; try done. by intros ? [= <-].
    + intros (? & ? & ? & Hc). repeat split; try done. by apply Hc.
  - split.
    + intros [[[? ?] _] ?]. by repeat split.
    + intros (? & ? & ? & _). by repeat split.
Qed.

Lemma find_vwao_spec (rows : list Vwao.t) (start_date end_date : option Z) :
  StronglySorted vwao_earlier (find_vwao rows start_date end_date) ∧
  ∀ q, q ∈ find_vwao rows start_date end_date ↔
       q ∈ rows ∧
       (∀ d, start_date = Some d → (d ≤ Vwao.scheduled_off q)%Z) ∧
       (∀ d, end_date = Some d → (Vwao.scheduled_off q ≤ d)%Z).
Proof.
  unfold find_vwao.
  split; [apply StronglySorted_merge_sort; apply _|].
  intros q. rewrite merge_sort_Permutation, list_elem_of_filter.
  rewrite in_window_spec. tauto.
Qed.

(** Bets of one scheduled time are in order. *)
Lemma same_time_sorted (t : Z) (l : list Bet.t) :
  Forall (λ b, Bet.scheduled_off b = t) l →
  StronglySorted (λ a b, Bet.scheduled_off a ≤ Bet.scheduled_off b)%Z l.
Proof.
  induction 1 as [|b l Hb Hl IH]; constructor; [done|].
  eapply Forall_impl; [exact Hl|]. intros b' Hb'. simpl in *. lia.
Qed.

Lemma progress_marks_app (j1 j2 : list Event) :
  progress_marks (j1 ++ j2) = progress_marks j1 ++ progress_marks j2.
Proof. apply omap_app. Qed.

Lemma progress_marks_placed (event_id : Z) (runners : list Z) :
  progress_marks (Placed event_id <$> runners) = [].
Proof. induction runners as [|r runners IH]; [done|]. simpl. apply IH. Qed.

Section ReplayFacts.
Context {H : Type} {HM : HorseModel H} {RM : RiskModel}.
Variable TO_BE_PLACED : string.
Implicit Types (s : Strategy H) (race : Race.t).

(** What a call of the handler on the current race leaves behind. *)
Lemma handle_race_at_current race s :
  _curr s = Some race →
  let r := handle_race TO_BE_PLACED race s in
  db r.2 = db s ∧ vwao r.2 = vwao s ∧
  _total_matched r.2 = _total_matched s ∧ _curr r.2 = _curr s ∧
  progress_marks (journal r.2) = progress_marks (journal s) ∧
  (r.1 = Ok tt → hm r.2 = fit_eligible TO_BE_PLACED (hm s) race) ∧
  (∀ e, r.1 = Raise e →
        hm r.2 = hm s ∧ left_out TO_BE_PLACED race = false ∧
        (e = KeyError ∨ e = ValueError)).
Proof.
  intros Hcur r. subst r. rewrite handle_race_cases. unfold fit_eligible.
  destruct (left_out TO_BE_PLACED race) eqn:Hg; [by repeat split|].
  destruct (decide_bets_decided race s)
    as [Hs|e Hs Hv|vw e Hs Hv Hc|vw coll Hs Hv Hc Hf|vw coll e Hs Hv Hc Hf He
       |vw coll curr Hs Hv Hc Hf Hcurr He]; simpl;
    rewrite ?progress_marks_app; simpl;
    rewrite ?progress_marks_app, ?progress_marks_placed, ?app_nil_r.
  - by repeat split.
  - apply vwao_values_raises in Hv as ->.
    repeat split; try done; intros; simplify_eq; by left.
  - apply collateral_raises in Hc as ->.
    repeat split; try done; intros; simplify_eq; by right.
  - by repeat split.
  - exfalso. rewrite Hcur in He.
    destruct He as [[? _]|(c & [= <-] & Hne & _)]; done.
  - by repeat split.
Qed.

Lemma replay_race_facts (i : nat) race s :
  let r := replay_race TO_BE_PLACED i race s in
  db r.2 = db s ∧ vwao r.2 = vwao s ∧
  _total_matched r.2 = _total_matched s ∧ _curr r.2 = Some race ∧
  (r.1 = Ok tt →
   hm r.2 = fit_eligible TO_BE_PLACED (hm s) race ∧
   progress_marks (journal r.2)
   = progress_marks (journal s) ++ (if progress_due i then [i] else [])) ∧
  (∀ e, r.1 = Raise e →
        hm r.2 = hm s ∧ left_out TO_BE_PLACED race = false ∧
        (e = KeyError ∨ e = ValueError)).
Proof.
  intros r. subst r. rewrite replay_race_cases.
  change ((0 <? i)%nat && (i mod 100 =? 0)%nat) with (progress_due i).
  destruct (handle_race_at_current race (set_curr race s) eq_refl)
    as (Hd & Hv & Ht & Hc & Hp & Hok & Herr).
  destruct (handle_race TO_BE_PLACED race (set_curr race s)) as [[[]|e] s1].
  - destruct (progress_due i); cbn [fst snd] in *.
    + unfold set_journal at 1 2 3 4 5 6. cbn [db vwao _total_matched _curr hm journal].
      rewrite progress_marks_app, Hp. repeat split; try done. by apply Hok.
    + rewrite app_nil_r. repeat split; try done. by apply Hok.
  - cbn [fst snd] in *. destruct (Herr e eq_refl) as (Hh & Hg & He).
    repeat split; try done; intros; by simplify_eq.
Qed.

Lemma for_enumerate_cons {A} (body : nat → A → M (H:=H) unit) (i : nat)
    (x : A) (l : list A) s :
  for_enumerate body i (x :: l) s =
  match body i x s with
  | (Ok _, s1) => for_enumerate body (S i) l s1
  | (Raise e, s1) => (Raise e, s1)
  end.
Proof. done. Qed.

Lemma replay_loop_facts (races : list Race.t) : ∀ (i : nat) s,
  let r := for_enumerate (replay_race TO_BE_PLACED) i races s in
  db r.2 = db s ∧ vwao r.2 = vwao s ∧ _total_matched r.2 = _total_matched s ∧
  (r.1 = Ok tt →
   hm r.2 = foldl (fit_eligible TO_BE_PLACED) (hm s) races ∧
   progress_marks (journal r.2)
   = progress_marks (journal s)
     ++ filter (λ j, progress_due j = true) (seq i (length races))) ∧
  (∀ e, r.1 = Raise e →
        (e = KeyError ∨ e = ValueError) ∧
        ∃ n race,
          races !! n = Some race ∧ _curr r.2 = Some race ∧
          left_out TO_BE_PLACED race = false ∧
          hm r.2 = foldl (fit_eligible TO_BE_PLACED) (hm s) (take n races)).
Proof.
  induction races as [|race races IH]; intros i s.
  - simpl. rewrite app_nil_r. by repeat split.
  - rewrite for_enumerate_cons.
    destruct (replay_race_facts i race s) as (Hd & Hv & Ht & Hc & Hok & Herr).
    destruct (replay_race TO_BE_PLACED i race s) as [[[]|e] s1];
      cbn [fst snd] in *.
    + destruct (Hok eq_refl) as [Hh Hp].
      destruct (IH (S i) s1) as (Hd' & Hv' & Ht' & Hok' & Herr').
      rewrite Hd', Hv', Ht'. split; [done|]. split; [done|]. split; [done|].
      split.
      * intros Hr. destruct (Hok' Hr) as [Hh' Hp']. split.
        -- by rewrite Hh', Hh.
        -- rewrite Hp', Hp. cbn [length seq]. rewrite filter_cons, <- app_assoc.
           by destruct (progress_due i); destruct (decide _).
      * intros e Hr.
        destruct (Herr' e Hr) as (He & n & race' & Hn & Hcur & Hg & Hh').
        split; [done|]. exists (S n), race'. cbn [take foldl].
        rewrite <- Hh. by repeat split.
    + destruct (Herr e eq_refl) as (Hh & Hg & He).
      split; [done|]. split; [done|]. split; [done|]. split; [done|].
      intros e' [= <-]. split; [done|]. exists 0%nat, race. by repeat split.
Qed.

Lemma run_cases (country : option string) (start_date end_date : option Z) s :
  run TO_BE_PLACED country start_date end_date s =
  let races := find_races (train_coll (db s)) country start_date end_date in
  match find_vwao (vwao_coll (db s)) start_date end_date with
  | [] => (Raise KeyError, set_vwao [] (_total_matched s) s)
  | rows =>
    for_enumerate (replay_race TO_BE_PLACED) 0 races
      (set_journal (journal s ++ [Info (RunningStrategy (length races))])
         (set_vwao rows (total_matched rows) s))
  end.
Proof.
  unfold run, mbind, M_bind, gets, modify, raise, lift, record. simpl.
  by destruct (find_vwao _ _ _).
Qed.

(** The loop over races in order of scheduled time adds bets in that
    order. *)
Lemma replay_loop_sorted (races : list Race.t) :
  StronglySorted race_earlier races →
  ∀ (i : nat) s,
  let r := for_enumerate (replay_race TO_BE_PLACED) i races s in
  ∃ new, _bets r.2 = _bets s ++ new ∧
         Forall (λ b, ∃ race, race ∈ races ∧ placed_on race b) new ∧
         StronglySorted (λ a b, Bet.scheduled_off a ≤ Bet.scheduled_off b)%Z new.
Proof.
  induction 1 as [|race races Hs IH Hle]; intros i s.
  - exists []. simpl. rewrite app_nil_r. repeat split; constructor.
  - rewrite for_enumerate_cons.
    destruct (replay_race_step TO_BE_PLACED i race s) as (_ & new1 & Hb1 & Hn1).
    assert (StronglySorted (λ a b, Bet.scheduled_off a ≤ Bet.scheduled_off b)%Z new1)
      as Hs1.
    { apply (same_time_sorted (Race.scheduled_off race)).
      eapply Forall_impl; [exact Hn1|]. by intros b (_ & Ht & _). }
    assert (Forall (λ b, ∃ race', race' ∈ race :: races ∧ placed_on race' b) new1)
      as Hin1.
    { eapply Forall_impl; [exact Hn1|]. intros b Hb. exists race.
      split; [left | done]. }
    destruct (replay_race TO_BE_PLACED i race s) as [[[]|e] s1];
      cbn [fst snd] in *; [|by exists new1].
    destruct (IH (S i) s1) as (new2 & Hb2 & Hn2 & Hs2).
    exists (new1 ++ new2). rewrite Hb2, Hb1, app_assoc.
    split; [done|]. split.
    + apply Forall_app. split; [done|].
      eapply Forall_impl; [exact Hn2|]. intros b (race' & Hin & Hb).
      exists race'. split; [by right | done].
    + apply StronglySorted_app. split; [|done].
      intros b1 b2 Hin1' Hin2'.
      destruct (proj1 (Forall_forall _ _) Hn1 b1 Hin1') as (_ & -> & _).
      destruct (proj1 (Forall_forall _ _) Hn2 b2 Hin2') as (race' & Hr' & _ & -> & _).
      apply (proj1 (Forall_forall _ _) Hle race' Hr').
Qed.

(** X8.  A run stays within its query.  The snapshot it loads holds the
    rows of the vwao collection inside the date window, whatever the
    country, in order of scheduled time.  Every bet it adds to the ledger is
    on a document of the train collection that lies inside the date window
    and, when a country is given, in that country; and the bets are added
    in non-decreasing order of scheduled time.  (Line 54 reads the vwao
    collection from the module-level [db], line 60 from [self.db]; the
    script hands the same store to the strategy, and the model has the one
    store.) *)
Theorem run_stays_within_query (country : option string)
    (start_date end_date : option Z) s :
  let r := run TO_BE_PLACED country start_date end_date s in
  StronglySorted vwao_earlier (vwao r.2) ∧
  (∀ q, q ∈ vwao r.2 ↔
        q ∈ vwao_coll (db s) ∧
        (∀ d, start_date = Some d → (d ≤ Vwao.scheduled_off q)%Z) ∧
        (∀ d, end_date = Some d → (Vwao.scheduled_off q ≤ d)%Z)) ∧
  ∃ new,
    _bets r.2 = _bets s ++ new ∧
    StronglySorted (λ a b, Bet.scheduled_off a ≤ Bet.scheduled_off b)%Z new ∧
    Forall (λ b, ∃ race,
              race ∈ train_coll (db s) ∧
              (∀ d, start_date = Some d → (d ≤ Race.scheduled_off race)%Z) ∧
              (∀ d, end_date = Some d → (Race.scheduled_off race ≤ d)%Z) ∧
              (∀ c, country = Some c → Race.country race = c) ∧
              placed_on race b) new.
Proof.
  intros r. subst r. rewrite run_cases. cbv zeta.
  destruct (find_vwao_spec (vwao_coll (db s)) start_date end_date) as [Hvs Hvq].
  destruct (find_races_spec (train_coll (db s)) country start_date end_date)
    as [Hrs Hrq].
  destruct (find_vwao (vwao_coll (db s)) start_date end_date) as [|row rows] eqn:Ev.
  - split; [constructor|]. split; [exact Hvq|].
    exists []. simpl. rewrite app_nil_r. repeat split; constructor.
  - match goal with |- context [for_enumerate _ 0 ?l ?s1] =>
      destruct (replay_loop_facts l 0 s1) as (_ & Hv & _);
      destruct (replay_loop_sorted l Hrs 0 s1) as (new & Hb & Hn & Hs) end.
    rewrite Hv. simpl. split; [exact Hvs|]. split; [exact Hvq|].
    exists new. split; [exact Hb|]. split; [exact Hs|].
    eapply Forall_impl; [exact Hn|]. intros b (race & Hin & Hp).
    exists race. apply Hrq in Hin as (Hin & Hlo & Hhi & Hco).
    repeat (split; [assumption|]). exact Hp.
Qed.

Lemma progress_none_below (n i : nat) :
  (i + n ≤ 100)%nat →
  filter (λ j, progress_due j = true) (seq i n) = [].
Proof.
  revert i. induction n as [|n IH]; intros i Hi; [done|].
  cbn [seq]. rewrite filter_cons, IH by lia.
  rewrite decide_False; [done|].
  unfold progress_due. destruct i as [|i]; [done|].
  rewrite Nat.mod_small by lia. done.
Qed.

(** X9.  A run that returns has fitted the skill model on the replayed
    races that pass the guard of the handler, once each and in replay
    order; a run that raises has done so for the races before the one it
    stopped at. *)
Theorem run_fits_replayed_races (country : option string)
    (start_date end_date : option Z) s :
  let r := run TO_BE_PLACED country start_date end_date s in
  let races := find_races (train_coll (db s)) country start_date end_date in
  (r.1 = Ok tt → hm r.2 = foldl (fit_eligible TO_BE_PLACED) (hm s) races) ∧
  (∀ e, r.1 = Raise e →
        ∃ n, hm r.2 = foldl (fit_eligible TO_BE_PLACED) (hm s) (take n races)).
Proof.
  intros r races. subst r. rewrite run_cases. cbv zeta. fold races.
  destruct (find_vwao _ _ _) as [|row rows].
  - split; [done|]. intros e _. by exists 0%nat.
  - match goal with |- context [for_enumerate _ 0 _ ?s1] =>
      destruct (replay_loop_facts races 0 s1) as (_ & _ & _ & Hok & Herr) end.
    split.
    + intros Hr. by destruct (Hok Hr).
    + intros e Hr. destruct (Herr e Hr) as (_ & n & _ & _ & _ & _ & Hh).
      by exists n.
Qed.

(** X10.  In a run that returns, a progress line is logged after the race
    at position [i] (counting from 0) exactly when [i] is a positive
    multiple of 100, whatever else the handler logs; a run over at most
    100 races logs none. *)
Theorem run_progress_lines (country : option string)
    (start_date end_date : option Z) s :
  let r := run TO_BE_PLACED country start_date end_date s in
  let races := find_races (train_coll (db s)) country start_date end_date in
  r.1 = Ok tt →
  progress_marks (journal r.2)
  = progress_marks (journal s)
    ++ filter (λ j, progress_due j = true) (seq 0 (length races)) ∧
  ((length races ≤ 100)%nat →
   progress_marks (journal r.2) = progress_marks (journal s)).
Proof.
  intros r races. subst r. rewrite run_cases. cbv zeta. fold races.
  destruct (find_vwao _ _ _) as [|row rows]; [done|].
  match goal with |- context [for_enumerate _ 0 _ ?s1] =>
    destruct (replay_loop_facts races 0 s1) as (_ & _ & _ & Hok & _) end.
  intros Hr. destruct (Hok Hr) as [_ Hp]. simpl in Hp.
  rewrite progress_marks_app in Hp. simpl in Hp. rewrite app_nil_r in Hp.
  split; [done|]. intros Hn. rewrite Hp, progress_none_below by lia.
  by rewrite app_nil_r.
Qed.

(** X11.  The only exceptions that escape a run are [KeyError] and
    [ValueError].  If no quote was loaded the run stops before the first
    race; otherwise the race it stopped at is the current one, a replayed
    race that passes the guard of the handler. *)
Theorem run_raises_only_lookup_errors (country : option string)
    (start_date end_date : option Z) s (e : exn) :
  let r := run TO_BE_PLACED country start_date end_date s in
  let races := find_races (train_coll (db s)) country start_date end_date in
  r.1 = Raise e →
  (e = KeyError ∨ e = ValueError) ∧
  ((find_vwao (vwao_coll (db s)) start_date end_date = [] ∧
    _curr r.2 = _curr s ∧ hm r.2 = hm s ∧ _bets r.2 = _bets s ∧
    journal r.2 = journal s) ∨
   (∃ race, race ∈ races ∧ _curr r.2 = Some race ∧
            left_out TO_BE_PLACED race = false)).
Proof.
  intros r races. subst r. rewrite run_cases. cbv zeta. fold races.
  destruct (find_vwao _ _ _) as [|row rows].
  - intros [= <-]. split; [by left|]. by left.
  - match goal with |- context [for_enumerate _ 0 _ ?s1] =>
      destruct (replay_loop_facts races 0 s1) as (_ & _ & _ & _ & Herr) end.
    intros Hr. destruct (Herr e Hr) as (He & n & race & Hn & Hc & Hg & _).
    split; [done|]. right. exists race. split; [|done].
    apply list_elem_of_lookup. by exists n.
Qed.

(** X12.  A run whose date window holds no quote at all ends in [KeyError]
    before the first race: no race becomes current, no bet is placed, the
    skill model is not fitted and nothing is logged. *)
Theorem run_without_quotes (country : option string)
    (start_date end_date : option Z) s :
  find_vwao (vwao_coll (db s)) start_date end_date = [] →
  let r := run TO_BE_PLACED country start_date end_date s in
  r.1 = Raise KeyError ∧
  _curr r.2 = _curr s ∧ _bets r.2 = _bets s ∧ hm r.2 = hm s ∧
  journal r.2 = journal s ∧ vwao r.2 = [].
Proof. intros E r. subst r. rewrite run_cases. cbv zeta. by rewrite E. Qed.

Lemma total_matched_find (rows : list Vwao.t) (event_id : Z) :
  (event_id ∈ Vwao.event_id <$> rows →
   ∃ i, list_find (λ kv, kv.1 = event_id) (total_matched rows)
        = Some (i, (event_id,
                    Qsum (Vwao.volume_matched
                            <$> filter (λ q, Vwao.event_id q = event_id) rows)))) ∧
  (event_id ∉ Vwao.event_id <$> rows →
   list_find (λ kv, kv.1 = event_id) (total_matched rows) = None).
Proof.
  unfold total_matched, groupby. rewrite <- list_fmap_compose, list_find_fmap.
  rewrite (list_find_ext _ (λ k, k = event_id)) by done.
  split.
  - intros Hin.
    assert (event_id ∈ merge_sort Z.le (remove_dups (Vwao.event_id <$> rows)))
      as Hk by (by rewrite merge_sort_Permutation, elem_of_remove_dups).
    destruct (list_find (λ k, k = event_id)
                (merge_sort Z.le (remove_dups (Vwao.event_id <$> rows))))
      as [[i k]|] eqn:Ef.
    + apply list_find_Some in Ef as (_ & -> & _). by exists i.
    + apply list_find_None in Ef. rewrite Forall_forall in Ef.
      by destruct (Ef event_id Hk).
  - intros Hout.
    match goal with |- _ <$> ?o = None => assert (o = None) as ->; [|done] end.
    apply list_find_None, Forall_forall. intros k Hk ->.
    apply Hout. by rewrite merge_sort_Permutation, elem_of_remove_dups in Hk.
Qed.

(** X13.  Once a run has loaded a snapshot with at least one quote,
    [get_total_matched] answers from that snapshot, also if the run later
    raised: for an event with loaded rows it returns the sum of their
    matched volumes, for any other event it raises [KeyError]; it changes
    nothing. *)
Theorem total_matched_after_run (country : option string)
    (start_date end_date : option Z) s (event_id : Z) :
  let rows := find_vwao (vwao_coll (db s)) start_date end_date in
  let s' := (run TO_BE_PLACED country start_date end_date s).2 in
  rows ≠ [] →
  vwao s' = rows ∧
  (event_id ∈ Vwao.event_id <$> rows →
   get_total_matched event_id s'
   = (Ok (Qsum (Vwao.volume_matched
                  <$> filter (λ q, Vwao.event_id q = event_id) rows)), s')) ∧
  (event_id ∉ Vwao.event_id <$> rows →
   get_total_matched event_id s' = (Raise KeyError, s')).
Proof.
  intros rows s' Hne. subst s'. rewrite run_cases. cbv zeta. fold rows.
  destruct rows as [|row rows'] eqn:Er; [done|]. rewrite <- Er.
  match goal with |- context [for_enumerate _ 0 ?l ?s1] =>
    destruct (replay_loop_facts l 0 s1) as (_ & Hv & Ht & _);
    set (s' := (for_enumerate (replay_race TO_BE_PLACED) 0 l s1).2) in * end.
  simpl in Hv, Ht. split; [done|].
  unfold get_total_matched, mbind, M_bind, gets, raise, lift. simpl.
  rewrite Ht. destruct (total_matched_find rows event_id) as [Hin Hout].
  split.
  - intros Hi. destruct (Hin Hi) as [i ->]. done.
  - intros Ho. by rewrite (Hout Ho).
Qed.

End ReplayFacts.

(** ** make_scorecard, continued *)

(** X14.  The scorecard builder returns on no ledger.  On the empty
    ledger it raises [KeyError], at the [groupby] of line 92.  On any other
    ledger lines 86-94 build the events frame, and then line 97 raises
    [NameError] if [datetime] is unbound (the module was imported), and
    line 99 raises [KeyError] if it is bound: [rename] was handed the mapping
    of the index labels, so the daily frame still has its columns
    [pnl_gross] and [pnl_net] and none called [gross]. *)
Theorem make_scorecard_never_returns (datetime : option (Z → Z))
    (bets : list Bet.t) (comm : Q) :
  (∃ e, make_scorecard datetime bets comm = Raise e ∧
        (e = KeyError ∨ e = NameError)) ∧
  (make_scorecard datetime bets comm = Raise NameError ↔
   bets ≠ [] ∧ datetime = None) ∧
  (bets ≠ [] →
   ∃ events,
     events_frame bets comm = Ok events ∧
     daily_pnl None events = Raise NameError ∧
     ∀ day, ∃ daily,
       daily_pnl (Some day) events = Ok daily ∧
       (columns daily).*1 = ["pnl_gross"; "pnl_net"] ∧
       column "gross" daily = Raise KeyError).
Proof.
  rewrite make_scorecard_raises. split; [|split].
  - eexists. split; [reflexivity|].
    destruct bets; [by left|]. destruct datetime; [by left | by right].
  - destruct bets as [|b bets]; [split; [done | by intros [? _]]|].
    destruct datetime; split; try done. by intros [_ ?].
  - intros Hne.
    destruct (events_frame_gross_total bets comm Hne) as (events & Ef & Hev & _).
    exists events. split; [done|]. split; [by apply daily_pnl_unbound|].
    intros day. apply daily_pnl_columns.
Qed.

Lemma StronglySorted_le_lt (l : list Z) :
  StronglySorted Z.le l → NoDup l → StronglySorted Z.lt l.
Proof.
  induction 1 as [|x l Hs IH Hx]; intros Hnd; [constructor|].
  apply NoDup_cons in Hnd as [Hnin Hnd]. constructor; [by apply IH|].
  rewrite Forall_forall in Hx |- *. intros y Hy.
  assert (x ≠ y) by (by intros ->). specialize (Hx y Hy). lia.
Qed.

Lemma events_ids (bets : list Bet.t) (rows : list Ev.t) :
  Forall2 (λ kv e, event_row kv = Ok e) (groupby Bet.event_id bets) rows →
  Ev.event_id <$> rows = merge_sort Z.le (remove_dups (Bet.event_id <$> bets)).
Proof.
  unfold groupby.
  generalize (merge_sort Z.le (remove_dups (Bet.event_id <$> bets))).
  intros ks. revert rows.
  induction ks as [|k ks IH]; intros rows Hf;
    inversion Hf as [|? e ? rows' He Hf']; subst; [done|].
  rewrite fmap_cons. f_equal; [|by apply IH].
  by apply event_row_inv in He as (-> & _).
Qed.

Lemma commission_id (comm : Q) (e : Ev.t) :
  Ev.event_id (commission comm e) = Ev.event_id e ∧
  Ev.scheduled_off (commission comm e) = Ev.scheduled_off e ∧
  Ev.coll (commission comm e) = Ev.coll e.
Proof. unfold commission. by destruct (Qltb _ _). Qed.

(** X15.  The events frame that lines 86-94 build has exactly one row per
    event of the ledger, in strictly ascending order of event id; the
    scheduled time of a row is that of the first bet of its event in ledger
    order. *)
Theorem scorecard_row_per_event (bets : list Bet.t) (comm : Q)
    (events : list Ev.t) :
  events_frame bets comm = Ok events →
  StronglySorted Z.lt (Ev.event_id <$> events) ∧
  (∀ k, k ∈ Ev.event_id <$> events ↔ k ∈ Bet.event_id <$> bets) ∧
  (∀ e, e ∈ events →
        ∃ i b, list_find (λ b, Bet.event_id b = Ev.event_id e) bets = Some (i, b) ∧
               Ev.scheduled_off e = Bet.scheduled_off b).
Proof.
  intros (rows & -> & Hrows)%events_frame_inv.
  assert (Ev.event_id <$> (commission comm <$> rows)
          = merge_sort Z.le (remove_dups (Bet.event_id <$> bets))) as Eids.
  { rewrite <- list_fmap_compose, <- (events_ids bets rows Hrows).
    apply list_fmap_ext. intros i e _. apply commission_id. }
  rewrite Eids. split; [|split].
  - apply StronglySorted_le_lt.
    + apply StronglySorted_merge_sort; apply _.
    + rewrite merge_sort_Permutation. apply NoDup_remove_dups.
  - intros k. by rewrite merge_sort_Permutation, elem_of_remove_dups.
  - intros e (e0 & -> & He0)%list_elem_of_fmap.
    apply list_elem_of_lookup in He0 as [i Hi].
    destruct (Forall2_lookup_r _ _ _ _ _ Hrows Hi) as (kv & Hk & Erow).
    assert (kv ∈ groupby Bet.event_id bets) as Hkv
      by (apply list_elem_of_lookup; by exists i).
    pose proof (groupby_nonempty _ _ _ Hkv) as Hne.
    apply groupby_group in Hkv as (Eg & _).
    destruct (commission_id comm e0) as (-> & -> & _).
    unfold event_row, mbind, res_bind in Erow.
    destruct (calculate_collateral kv.2); [|done].
    destruct (index (Bet.scheduled_off <$> kv.2) 0) as [off|] eqn:Eoff; [|done].
    injection Erow as <-. simpl.
    unfold index in Eoff. rewrite list_lookup_fmap in Eoff.
    destruct (kv.2 !! 0%nat) as [b|] eqn:Eb; [|done]. injection Eoff as <-.
    rewrite Eg in Eb.
    destruct (list_find (λ b0, Bet.event_id b0 = kv.1) bets) as [[j b']|] eqn:Ef.
    + exists j, b'. split; [done|]. f_equal.
      clear -Eb Ef. revert j Ef.
      induction bets as [|x bets IH]; intros j Ef; [done|].
      rewrite filter_cons in Eb. simpl in Ef.
      destruct (decide (Bet.event_id x = kv.1)).
      * simpl in Eb. congruence.
      * destruct (list_find _ bets) as [[j' b'']|] eqn:Ef'; [|done].
        simpl in Ef. injection Ef as <- <-. by eapply IH.
    + exfalso. apply list_find_None in Ef. rewrite Forall_forall in Ef.
      assert (b ∈ filter (λ x, Bet.event_id x = kv.1) bets) as Hb
        by (apply list_elem_of_lookup; by exists 0%nat).
      apply list_elem_of_filter in Hb as [Hk' Hb]. by destruct (Ef b Hb).
Qed.

(** X16.  With a commission factor between 0 and 1 no row of the events
    frame that lines 86-94 build has a net figure above its gross figure,
    and the net total is at most the gross total. *)
Theorem commission_never_adds (bets : list Bet.t) (comm : Q)
    (events : list Ev.t) :
  (0 <= comm)%Q → (comm <= 1)%Q →
  events_frame bets comm = Ok events →
  Forall (λ e, Ev.pnl_net e <= Ev.pnl_gross e)%Q events ∧
  (Qsum (Ev.pnl_net <$> events) <= Qsum (Ev.pnl_gross <$> events))%Q.
Proof.
  intros H0 H1 (rows & -> & Hrows)%events_frame_inv.
  assert (Forall (λ e, Ev.pnl_net e = Ev.pnl_gross e) rows) as Hn.
  { apply Forall_forall. intros e [i Hi]%list_elem_of_lookup.
    destruct (Forall2_lookup_r _ _ _ _ _ Hrows Hi) as (kv & _ & Erow).
    by apply event_row_inv in Erow as (_ & _ & ->). }
  clear Hrows.
  assert (Forall (λ e, Ev.pnl_net e <= Ev.pnl_gross e)%Q (commission comm <$> rows))
    as Hle.
  { apply Forall_fmap. eapply Forall_impl; [exact Hn|].
    intros e En. simpl. unfold commission. rewrite En.
    destruct (Qltb 0 (Ev.pnl_gross e)) eqn:Hp; simpl.
    - apply Qltb_lt in Hp. nra.
    - rewrite En. apply Qle_refl. }
  split; [done|].
  induction Hle as [|e es He Hes IH]; [apply Qle_refl|].
  rewrite !fmap_cons, !Qsum_cons. lra.
Qed.

(** ** The sweep harness *)

(** X18.  Tagging a list of records that was tagged before replaces the
    earlier tag: the result is the one of tagging once with the later id,
    with as many records in the same order. *)
Theorem retagging_replaces_tag (a b : val) (dicts : list Bet.t) :
  add_scorecard_id_to_dicts b (add_scorecard_id_to_dicts a dicts)
  = add_scorecard_id_to_dicts b dicts ∧
  length (add_scorecard_id_to_dicts b dicts) = length dicts ∧
  Bet.selection <$> add_scorecard_id_to_dicts b dicts = Bet.selection <$> dicts.
Proof.
  unfold add_scorecard_id_to_dicts. split; [|split].
  - rewrite <- list_fmap_compose. apply list_fmap_ext. intros i d _.
    unfold add_scorecard_id. simpl. by rewrite insert_insert_eq.
  - apply length_fmap.
  - rewrite <- list_fmap_compose. by apply list_fmap_ext.
Qed.

Lemma product_cons (range : list Q) (ranges : list (list Q)) :
  product (range :: ranges) = range ≫= λ x, cons x <$> product ranges.
Proof.
  cbn [product]. apply list_bind_ext; [|done]. intros x.
  induction (product ranges) as [|r rests IH]; [done|].
  by rewrite bind_cons, IH.
Qed.

Lemma product_length (ranges : list (list Q)) :
  length (product ranges) = foldr Nat.mul 1%nat (length <$> ranges).
Proof.
  induction ranges as [|range ranges IH]; [done|].
  rewrite product_cons, fmap_cons. cbn [foldr]. rewrite <- IH.
  induction range as [|x range IHr]; [done|].
  rewrite bind_cons, length_app, length_fmap, IHr. done.
Qed.

Lemma foldl_mul (n : nat) (l : list nat) :
  foldl Nat.mul n l = (n * foldr Nat.mul 1 l)%nat.
Proof.
  revert n. induction l as [|m l IH]; intros n; simpl; [lia|].
  rewrite IH. lia.
Qed.

Lemma n_backtests_product (mparams : list (list Q)) :
  mparams ≠ [] → n_backtests mparams = Some (length (product mparams)).
Proof.
  intros Hne. rewrite product_length. unfold n_backtests.
  destruct mparams as [|range ranges]; [done|].
  rewrite fmap_cons. unfold reduce_mul. by rewrite foldl_mul.
Qed.

(** X19.  The number of backtests the harness announces (line 138) is the
    number of contexts it dispatches (line 144), and the contexts carry the
    run indices 0, 1, 2, ... in order. *)
Theorem sweep_size (mparams : list (list Q)) :
  mparams ≠ [] →
  n_backtests mparams = Some (length (contexts mparams)) ∧
  (contexts mparams).*1 = seq 0 (length (contexts mparams)).
Proof.
  intros Hne. unfold contexts. rewrite length_imap. split.
  - by apply n_backtests_product.
  - generalize (product mparams). intros l.
    rewrite fmap_imap.
    rewrite (imap_ext _ (λ n _, id n) l) by done.
    by rewrite imap_seq_0, list_fmap_id.
Qed.

Lemma product_elem (ranges : list (list Q)) : ∀ values,
  values ∈ product ranges ↔ Forall2 (λ v range, v ∈ range) values ranges.
Proof.
  induction ranges as [|range ranges IH]; intros values.
  - simpl. rewrite list_elem_of_singleton. split.
    + intros ->. constructor.
    + by intros ->%Forall2_nil_inv_r.
  - rewrite product_cons, list_elem_of_bind. split.
    + intros (x & (rest & -> & Hrest)%list_elem_of_fmap & Hx).
      constructor; [done|]. by apply IH.
    + intros (x & rest & Hx & Hrest & ->)%Forall2_cons_inv_r.
      exists x. split; [|done]. apply list_elem_of_fmap.
      exists rest. split; [done|]. by apply IH.
Qed.

(** X20.  The sweep runs the full grid: a combination of values is
    dispatched exactly if it takes one value from each range, in the order
    of the ranges; when no range repeats a value, no combination is
    dispatched twice. *)
Theorem sweep_enumerates_grid (mparams : list (list Q)) :
  (∀ values, values ∈ product mparams ↔
             Forall2 (λ v range, v ∈ range) values mparams) ∧
  (Forall NoDup mparams → NoDup (product mparams)).
Proof.
  split; [apply product_elem|].
  induction 1 as [|range ranges Hnd _ IH].
  - simpl. apply NoDup_singleton.
  - rewrite product_cons. apply NoDup_bind; [| |done].
    + intros x1 x2 values _ _ (r1 & -> & _)%list_elem_of_fmap
             (r2 & [= -> _] & _)%list_elem_of_fmap. done.
    + intros x _. apply NoDup_fmap_2; [|done]. by intros r1 r2 [= ->].
Qed.

(** X21.  With the eight ranges of the harness, every dispatched context
    carries its own position as run index, and [run_backtest] finds all
    eight hyperparameters in it (no [KeyError]): they are the values of the
    grid point at that position, name by name. *)
Theorem sweep_contexts_readable (mparams : list (list Q)) (n k : nat)
    (d : gmap string Q) :
  length mparams = 8%nat →
  contexts mparams !! n = Some (k, d) →
  k = n ∧
  ∃ h, strategy_args d = Ok h ∧ product mparams !! n = Some (hyper_values h).
Proof.
  intros Hlen. unfold contexts. rewrite list_lookup_imap.
  destruct (product mparams !! n) as [values|] eqn:Hn; [|done].
  intros [= <- <-]. split; [done|].
  assert (length values = 8%nat) as Hl.
  { rewrite <- Hlen. eapply Forall2_length, product_elem.
    apply list_elem_of_lookup. by exists n. }
  destruct values as [|a [|b [|c [|d [|e [|f [|g [|h [|? ?]]]]]]]]]; try done.
  exists (mkHyper a b c d e f g h). split; [|done].
  unfold strategy_args, getitem, dict_zip, keys. simpl.
  repeat (rewrite lookup_insert_eq || rewrite lookup_insert_ne by done).
  done.
Qed.

(** X22.  If one of the ranges is empty the sweep has nothing to run: the
    announced number of backtests is 0 and no context is dispatched. *)
Theorem empty_range_empties_sweep (mparams : list (list Q)) :
  [] ∈ mparams →
  n_backtests mparams = Some 0%nat ∧ contexts mparams = [].
Proof.
  intros Hin.
  assert (product mparams = []) as Hp.
  { induction mparams as [|range ranges IH]; [by apply elem_of_nil in Hin|].
    rewrite product_cons.
    apply elem_of_cons in Hin as [<-|Hin]; [done|].
    rewrite (IH Hin). clear. by induction range. }
  split.
  - rewrite n_backtests_product, Hp; [done|]. intros ->. by apply elem_of_nil in Hin.
  - unfold contexts. by rewrite Hp.
Qed.

(** ** Parameter ranges *)

Lemma split_colon_length (s : string) :
  length (split_colon s) = S (colons s).
Proof.
  induction s as [|c s IH]; [done|]. simpl.
  destruct (Ascii.eqb c ":"%char); simpl; [by rewrite IH|].
  destruct (split_colon s) as [|g groups]; simpl in *; done.
Qed.

Lemma split_colon_none (s : string) : colons s = 0%nat → split_colon s = [s].
Proof.
  induction s as [|c s IH]; [done|]. simpl.
  destruct (Ascii.eqb c ":"%char); [done|]. simpl. intros E. by rewrite IH.
Qed.

Lemma int_of_float_nonneg (k : Q) : (0 <= k)%Q → int_of_float k = Qfloor k.
Proof.
  intros Hk. unfold int_of_float.
  by rewrite (proj2 (Qle_bool_iff 0 k) Hk).
Qed.

Lemma int_of_float_Z (n : Z) : int_of_float (inject_Z n) = n.
Proof.
  unfold int_of_float. destruct (Qle_bool 0 (inject_Z n));
    [apply Qfloor_Z | apply Qceiling_Z].
Qed.

(** The points of [linspace] for a count of at least two. *)
Lemma linspace_points (start stop num : Q) :
  (2 ≤ int_of_float num)%Z →
  let n := int_of_float num in
  let l := linspace start stop num in
  length l = Z.to_nat n ∧
  last l = Some stop ∧
  ∀ i v, l !! i = Some v →
         (v == start + inject_Z (Z.of_nat i) * ((stop - start) / inject_Z (n - 1)))%Q.
Proof.
  intros Hn n l. subst l. unfold linspace. fold n. fold n in Hn.
  clearbody n.
  rewrite (proj2 (Z.leb_gt n 0)), (proj2 (Z.eqb_neq n 1)) by lia.
  cbv zeta.
  set (step := ((stop - start) / inject_Z (n - 1))%Q).
  set (y := (λ i, inject_Z (Z.of_nat i) * step + start)%Q <$> seq 0 (Z.to_nat n)).
  assert (length y = Z.to_nat n) as Ly
    by (unfold y; by rewrite length_fmap, length_seq).
  split; [by rewrite length_insert|]. split.
  - rewrite last_lookup, length_insert, Ly.
    replace (Init.Nat.pred (Z.to_nat n)) with (Z.to_nat n - 1)%nat by lia.
    apply list_lookup_insert_eq. lia.
  - intros i v Hv.
    destruct (decide (i = (Z.to_nat n - 1)%nat)) as [->|Hi].
    + rewrite list_lookup_insert_eq in Hv by lia. injection Hv as <-.
      replace (Z.of_nat (Z.to_nat n - 1)) with (n - 1)%Z by lia.
      unfold step. field.
      intros E. unfold Qeq in E. simpl in E. lia.
    + rewrite list_lookup_insert_ne in Hv by done.
      unfold y in Hv. rewrite list_lookup_fmap in Hv.
      destruct (seq 0 (Z.to_nat n) !! i) as [j|] eqn:Ej; [|done].
      apply lookup_seq in Ej as [-> _]. injection Hv as <-. simpl. ring.
Qed.

Section RangeFacts.
Variable float : string → option Q.

(** X23.  An argument of the form [a:b] sweeps the default number of ten
    values: evenly spaced from [float(a)], with [float(b)] itself as the
    last one. *)
Theorem arg_linspace_two_groups (s a b : string) (x y : Q) :
  split_colon s = [a; b] →
  float a = Some x → float b = Some y →
  ∃ l, arg_linspace float s = Parsed l ∧
       length l = 10%nat ∧
       last l = Some y ∧
       ∀ i v, l !! i = Some v →
              (v == x + inject_Z (Z.of_nat i) * ((y - x) / 9))%Q.
Proof.
  intros Hs Ha Hb. unfold arg_linspace, to_float. rewrite Hs, Ha, Hb.
  eexists. split; [done|].
  destruct (linspace_points x y (inject_Z DEFAULT_NUM)) as (Hl & Hlast & Hp).
  { by rewrite int_of_float_Z. }
  rewrite int_of_float_Z in Hl, Hp. by repeat split.
Qed.

(** X24.  An argument with three or more colons is rejected with
    [ArgumentTypeError] before any of its parts is read as a number; an
    argument without a colon is the single value [float] reads from it,
    and fails as [float] does if that is not a number. *)
Theorem arg_linspace_group_count (s : string) :
  ((3 ≤ colons s)%nat → arg_linspace float s = Rejected ArgumentTypeError) ∧
  (colons s = 0%nat →
   arg_linspace float s
   = match float s with
     | Some x => Parsed [x]
     | None => Rejected FloatValueError
     end).
Proof.
  split.
  - intros Hc. pose proof (split_colon_length s) as Hl.
    unfold arg_linspace.
    destruct (split_colon s) as [|a [|b [|c [|d groups]]]]; simpl in Hl;
      try lia. done.
  - intros Hc. unfold arg_linspace, to_float. by rewrite split_colon_none.
Qed.

(** X25.  An argument of the form [a:b:n] with a count [float(n)] that is
    not negative sweeps as many values as the count cut to an integer
    says: none if the count is below 1, and from two on the first is
    [float(a)] and the last is [float(b)]. *)
Theorem arg_linspace_three_groups (s a b n : string) (x y k : Q) :
  split_colon s = [a; b; n] →
  float a = Some x → float b = Some y → float n = Some k →
  (0 <= k)%Q →
  ∃ l, arg_linspace float s = Parsed l ∧
       length l = Z.to_nat (Qfloor k) ∧
       ((k < 1)%Q → l = []) ∧
       ((2 <= k)%Q → last l = Some y ∧ ∃ v, head l = Some v ∧ (v == x)%Q).
Proof.
  intros Hs Ha Hb Hn Hk. unfold arg_linspace, to_float.
  rewrite Hs, Ha, Hb, Hn. eexists. split; [done|].
  pose proof (int_of_float_nonneg k Hk) as Ei.
  assert (0 ≤ Qfloor k)%Z as Hf0.
  { change 0%Z with (Qfloor 0). by apply Qfloor_resp_le. }
  split; [|split].
  - destruct (Z_lt_le_dec (Qfloor k) 2) as [Hlt|Hge].
    + unfold linspace. rewrite Ei.
      destruct (Z.leb_spec (Qfloor k) 0); [simpl; lia|].
      rewrite (proj2 (Z.eqb_eq (Qfloor k) 1)) by lia. simpl. lia.
    + destruct (linspace_points x y k) as (Hl & _); [by rewrite Ei|].
      by rewrite Hl, Ei.
  - intros Hk1. unfold linspace. rewrite Ei.
    assert (Qfloor k ≤ 0)%Z as Hle.
    { assert (Qfloor k < 1)%Z; [|lia].
      apply Z.lt_nge. intros Hge.
      pose proof (Qfloor_le k) as Hfl.
      assert (inject_Z 1 <= inject_Z (Qfloor k))%Q as Hinj
        by (by rewrite <- Zle_Qle).
      change (inject_Z 1) with 1%Q in Hinj. lra. }
    by rewrite (proj2 (Z.leb_le _ _) Hle).
  - intros Hk2.
    assert (2 ≤ Qfloor k)%Z as Hge.
    { change 2%Z with (Qfloor 2). by apply Qfloor_resp_le. }
    destruct (linspace_points x y k) as (Hl & Hlast & Hp); [by rewrite Ei|].
    split; [done|].
    destruct (linspace x y k) as [|v l] eqn:El; [simpl in Hl; lia|].
    exists v. split; [done|].
    rewrite (Hp 0%nat v eq_refl). simpl. unfold Qdiv. ring.
Qed.

End RangeFacts.

(** ** Jockey.handle_race2, continued *)

Section PlaceWarning.
Context {H : Type}.
Variable TO_BE_PLACED : string.
Implicit Types (s : Strategy H) (race : Race.t).

(** X26.  With a snapshot that a run has loaded (it holds a quote of some
    event), [handle_race2] on a to-be-placed market logs the warning
    [No VWAO for <event_id>] exactly when the snapshot holds no quote for
    the event of the market; it then returns with nothing else changed.  An
    [AssertionError] of [bet] is not caught: it escapes exactly when the
    event is quoted and is not the one of the current race. *)
Theorem handle_race2_warns_iff_unquoted race s :
  Race.event race = TO_BE_PLACED →
  vwao s ≠ [] →
  let r := handle_race2 TO_BE_PLACED race s in
  let warning := Warn (NoVWAO (Race.event_id race)) in
  let unquoted :=
    ∀ row, row ∈ vwao s → Vwao.event_id row ≠ Race.event_id race in
  (journal r.2 = journal s ++ [warning] ↔ unquoted) ∧
  (unquoted → r = (Ok tt, set_journal (journal s ++ [warning]) s)) ∧
  (r.1 = Raise AssertionError ↔
   (∃ row, row ∈ vwao s ∧ Vwao.event_id row = Race.event_id race) ∧
   ∃ curr, _curr s = Some curr ∧ Race.event_id curr ≠ Race.event_id race).
Proof.
  intros Ee _ r warning unquoted. subst r warning unquoted.
  rewrite handle_race2_cases, Ee, String.eqb_refl.
  destruct (ix (vwao s) (Race.event_id race)) as [slice|e] eqn:Ei.
  2:{ apply ix_Raise in Ei as [_ Hno]. simpl. split; [done|]. split; [done|].
      split; [done|]. intros [(row & Hin & He) _]. by destruct (Hno row Hin). }
  destruct (ix_Ok _ _ _ Ei) as [Hne Hsl].
  destruct (favourite_spec slice Hne) as (row & -> & Hrow & _).
  apply Hsl in Hrow as [Hrow Herow].
  assert (¬ ∀ row', row' ∈ vwao s → Vwao.event_id row' ≠ Race.event_id race)
    as Hq by (intros Hno; by destruct (Hno row Hrow)).
  assert (∀ ev : Event, journal s ≠ journal s ++ [ev]) as Hj0.
  { intros ev E. rewrite <- (app_nil_r (journal s)) in E at 1.
    by apply app_inv_head in E. }
  rewrite bet_cases.
  destruct (_curr s) as [curr|] eqn:Ec.
  2:{ simpl. split; [split; [by intros ?%Hj0 | done]|]. split; [done|].
      split; [done|]. by intros [_ (c & [=] & _)]. }
  destruct (Z.eqb_spec (Race.event_id race) (Race.event_id curr)) as [Eid|Eid].
  2:{ simpl. split; [split; [by intros ?%Hj0 | done]|]. split; [done|].
      split; [|done]. intros _. split; [by exists row|].
      exists curr. split; [done|]. congruence. }
  destruct (get_value (vwao s) (Race.event_id race) (Vwao.selection row))
    as [o|e] eqn:Eg.
  - simpl. split; [split; [|done]|].
    + intros E. apply app_inv_head in E. discriminate E.
    + split; [done|]. split; [done|].
      intros [_ (c & [= <-] & Hc)]. congruence.
  - apply get_value_Raise in Eg as [_ Hno]. by destruct (Hno row Hrow).
Qed.

End PlaceWarning.

(** ** The further properties at work *)

(** A bet with two user fields, one of which is called [scorecard_id]. *)
Lemma bet_extra_is_user_fields_witness :
  ∃ b, _bets (bet 4 1 0.5%Q
                (Some {[ "p" := VNum 0.55%Q; "scorecard_id" := VInt 7 ]})
                at_the_post).2 = [b] ∧
       Bet.extra b !! "user_p" = Some (VNum 0.55%Q) ∧
       Bet.extra b !! "scorecard_id" = None ∧
       size (Bet.extra b) = 2%nat.
Proof.
  destruct (bet_extra_is_user_fields 4 1 0.5%Q
              (Some {[ "p" := VNum 0.55%Q; "scorecard_id" := VInt 7 ]})
              at_the_post _ eq_refl) as (b & Hb & Hk & Hs).
  exists b. split; [exact Hb|]. split; [|split].
  - apply Hk. exists "p". split; [reflexivity|]. vm_compute. reflexivity.
  - destruct (Bet.extra b !! "scorecard_id") as [v|] eqn:E; [|reflexivity].
    apply Hk in E as (k' & Hk' & _). discriminate Hk'.
  - rewrite Hs. vm_compute. reflexivity.
Defined.

(** The place market of the season: runner 1 is quoted lowest. *)
Lemma handle_race2_backs_favourite_witness :
  ∃ b, _bets (handle_race2 to_be_placed place_market at_the_place).2 = [b] ∧
       Bet.amount b = 2%Q ∧ Bet.selection b = 1%Z.
Proof.
  destruct (handle_race2_backs_favourite to_be_placed place_market place_market
              at_the_place eq_refl eq_refl eq_refl) as (b & row & Hr & Ha & _ & _ & _ & Hs & _).
  { exists (Vwao.mk 8 1 80 2 500). split; [left | reflexivity]. }
  exists b. rewrite Hr. split; [reflexivity|]. split; [exact Ha|].
  assert (Bet.selection <$> _bets (handle_race2 to_be_placed place_market at_the_place).2
          = [1%Z]) as E by (vm_compute; reflexivity).
  rewrite Hr in E. simpl in E. by injection E.
Defined.

(** The place market when the loaded snapshot holds the quotes of the
    fourth meeting only. *)
Lemma handle_race2_warns_iff_unquoted_witness :
  vwao at_the_post = quotes 4 ∧
  handle_race2 to_be_placed place_market at_the_post
  = (Ok tt, set_journal [Warn (NoVWAO 8)] at_the_post).
Proof.
  split; [reflexivity|].
  destruct (handle_race2_warns_iff_unquoted to_be_placed place_market
              at_the_post eq_refl) as (_ & Hw & _); [discriminate|].
  apply Hw. intros row Hin.
  unfold at_the_post, quotes in Hin. simpl in Hin.
  repeat (apply elem_of_cons in Hin as [->|Hin]; [discriminate|]).
  by apply elem_of_nil in Hin.
Defined.

(** The three bets of the fourth meeting. *)
Lemma placed_bets_carry_sizing_inputs_witness :
  let new := _bets (handle_race (HM:=Frequency) (RM:=Ridge) to_be_placed
                      (meeting 4) at_the_post).2 in
  new ≠ [] ∧ Bet.selection <$> new = [1; 2; 3]%Z ∧ Bet.odds <$> new = [2; 4; 4]%Q.
Proof.
  cbv zeta.
  assert (_bets (handle_race (HM:=Frequency) (RM:=Ridge) to_be_placed
                   (meeting 4) at_the_post).2 ≠ []) as Hne
    by (vm_compute; discriminate).
  split; [exact Hne|].
  destruct (placed_bets_carry_sizing_inputs (HM:=Frequency) (RM:=Ridge)
              to_be_placed (meeting 4) at_the_post _ eq_refl Hne)
    as (vw & Hv & Hs & Ho & _).
  split; [exact Hs|]. rewrite Ho.
  vm_compute in Hv. by injection Hv as <-.
Defined.

(** 101 races: one progress line, after the race at position 100. *)
Lemma run_progress_lines_witness :
  long_replay.1 = Ok tt ∧ progress_marks (journal long_replay.2) = [100%nat].
Proof.
  assert (long_replay.1 = Ok tt) as Hr by (vm_compute; reflexivity).
  split; [exact Hr|].
  destruct (run_progress_lines (HM:=Frequency) (RM:=Ridge) to_be_placed
              None None None (fresh long_season) Hr) as [Hp _].
  unfold long_replay. rewrite Hp. vm_compute. reflexivity.
Defined.

(** The season with the gap stops at the fourth meeting. *)
Lemma run_raises_only_lookup_errors_witness :
  gap_replay.1 = Raise KeyError ∧
  ∃ race, _curr gap_replay.2 = Some race ∧ Race.event_id race = 4%Z.
Proof.
  unfold gap_replay.
  assert ((run (HM:=Frequency) (RM:=Ridge) to_be_placed None None None
             (fresh gap_season)).1 = Raise KeyError) as Hr
    by (vm_compute; reflexivity).
  split; [exact Hr|].
  pose proof (run_raises_only_lookup_errors (HM:=Frequency) (RM:=Ridge)
                to_be_placed None None None (fresh gap_season) KeyError) as Hx.
  cbv zeta in Hx. destruct (Hx Hr) as [_ [(Hq & _)|(race & _ & Hc & _)]].
  - vm_compute in Hq. discriminate Hq.
  - exists race. split; [exact Hc|].
    assert (_curr (run (HM:=Frequency) (RM:=Ridge) to_be_placed None None None
                     (fresh gap_season)).2 = Some (meeting 4)) as E
      by (vm_compute; reflexivity).
    rewrite Hc in E. by injection E as ->.
Defined.

Lemma run_without_quotes_witness :
  (run (HM:=Frequency) (RM:=Ridge) to_be_placed None None None
     (fresh unquoted_season)).1 = Raise KeyError.
Proof.
  apply (run_without_quotes (HM:=Frequency) (RM:=Ridge) to_be_placed
           None None None (fresh unquoted_season)).
  vm_compute. reflexivity.
Defined.

(** The matched volume of the fourth meeting is 500 + 300 + 200. *)
Lemma total_matched_after_run_witness :
  ∃ v, (get_total_matched 4 season_replay.2).1 = Ok v ∧ (v == 1000)%Q.
Proof.
  destruct (total_matched_after_run (HM:=Frequency) (RM:=Ridge) to_be_placed
              None None None (fresh season) 4) as (_ & Hin & _).
  { vm_compute. discriminate. }
  eexists. unfold season_replay. rewrite Hin.
  - split; [reflexivity|]. vm_compute. reflexivity.
  - vm_compute. left.
Defined.

Lemma scorecard_row_per_event_witness :
  Ev.event_id <$> mixed_events = [4; 5]%Z ∧
  StronglySorted Z.lt (Ev.event_id <$> mixed_events).
Proof.
  split; [vm_compute; reflexivity|].
  apply (scorecard_row_per_event mixed_ledger DEFAULT_COMM mixed_events).
  vm_compute. reflexivity.
Defined.

Lemma commission_never_adds_witness :
  (Qsum (Ev.pnl_net <$> mixed_events) <= Qsum (Ev.pnl_gross <$> mixed_events))%Q.
Proof.
  apply (commission_never_adds mixed_ledger DEFAULT_COMM mixed_events).
  - vm_compute. discriminate.
  - vm_compute. discriminate.
  - vm_compute. reflexivity.
Defined.

(** The grid has 2 x 2 points. *)
Lemma sweep_size_witness :
  n_backtests grid = Some 4%nat ∧ (contexts grid).*1 = [0; 1; 2; 3]%nat.
Proof.
  destruct (sweep_size grid) as [Hn Hi]; [discriminate|].
  split.
  - rewrite Hn. vm_compute. reflexivity.
  - rewrite Hi. vm_compute. reflexivity.
Defined.

(** The third context of the grid: the second [tau], the first
    [min_races]. *)
Lemma sweep_contexts_readable_witness :
  ∃ d h, contexts grid !! 2%nat = Some (2%nat, d) ∧
         strategy_args d = Ok h ∧ tau h = 0.2%Q ∧ min_races h = 3%Q.
Proof.
  assert (∃ d, contexts grid !! 2%nat = Some (2%nat, d)) as [d Hd].
  { eexists. vm_compute. reflexivity. }
  destruct (sweep_contexts_readable grid 2 2 d eq_refl Hd) as (_ & h & Hh & Hp).
  exists d, h. split; [exact Hd|]. split; [exact Hh|].
  assert (product grid !! 2%nat = Some [25; 8; 4; 0.2; 0.1; 0.1; 3; 50]%Q) as Eg
    by (vm_compute; reflexivity).
  rewrite Eg in Hp. unfold hyper_values in Hp.
  injection Hp as _ _ _ Ht _ _ Hm _. by split.
Defined.

Lemma empty_range_empties_sweep_witness :
  contexts [[25]; []; [4]]%Q = [].
Proof.
  apply (empty_range_empties_sweep [[25]; []; [4]]%Q). right. left.
Defined.

(** [--mu 20:29] *)
Lemma arg_linspace_two_groups_witness :
  ∃ l, arg_linspace digits_float "20:29" = Parsed l ∧ length l = 10%nat ∧
       last l = Some 29%Q.
Proof.
  destruct (arg_linspace_two_groups digits_float "20:29" "20" "29" 20 29
              eq_refl eq_refl eq_refl) as (l & Hl & Hn & Hlast & _).
  by exists l.
Defined.

(** [--tau 0:1:3] *)
Lemma arg_linspace_three_groups_witness :
  ∃ l, arg_linspace digits_float "0:1:3" = Parsed l ∧ length l = 3%nat.
Proof.
  destruct (arg_linspace_three_groups digits_float "0:1:3" "0" "1" "3" 0 1 3
              eq_refl eq_refl eq_refl eq_refl) as (l & Hl & Hn & _).
  { vm_compute. discriminate. }
  exists l. split; [exact Hl|]. rewrite Hn. vm_compute. reflexivity.
Defined.
